(** * License Key Manager CLI (src/main.js): a shallow embedding

    The program is a Node.js command-line tool with two commands,
    [generate] and [verify].  This file embeds its functions
    ([generateLicenseKey], [isValidDomain], [isValidExpirationDate],
    [calculateChecksum], [addChecksum]) and its two command actions,
    together with the parts of the Node.js runtime they call
    (MD5 and SHA-256 digests, hexadecimal encoding of buffers,
    [String.prototype.split], [RegExp.prototype.test], the console,
    the clock, the random source and the machine identifier).

    Representation of data.
    - A JavaScript string is represented by the bytes of its UTF-8
      encoding, as a [string] of Rocq (one [ascii] per byte).  This is
      what [process.argv] delivers and what [Hash.update] consumes.  The
      delimiter and every character class of the two regular expressions
      are ASCII, so splitting on the dot and matching behave on the bytes
      as they do on UTF-16 code units; every string whose length the
      program or its specification measures is ASCII.
    - A [Buffer] is a [list byte].
    - A 32-bit word is a [Z] in the range from 0 to 2^32 - 1, with the
      wrap-around written out.
    - A time value is an [option Z] (milliseconds since the epoch),
      [None] standing for NaN. *)

From Stdlib Require Import ZArith List String Ascii Bool Lia Arith.
From Stdlib Require Import Strings.Byte.
Import ListNotations.

Local Open Scope string_scope.

(* ================================================================== *)
(** * Part I: definitions *)
(* ================================================================== *)

(** ** JavaScript strings *)

Module JsString.

(** [s.substring(start, end)] for [start <= end]; the standard
    library's [substring] takes a start and a length. *)
Definition substring (s : string) (start end_ : nat) : string :=
  String.substring (Nat.min start end_)
                   (Nat.max start end_ - Nat.min start end_) s.

(** [s.split(sep)] for a separator of one character.  The result is
    never empty: a string without the separator is its own single part. *)
Fixpoint split (sep : ascii) (s : string) : list string :=
  match s with
  | EmptyString => [EmptyString]
  | String c rest =>
      if Ascii.eqb c sep then EmptyString :: split sep rest
      else match split sep rest with
           | [] => [String c EmptyString]
           | p :: ps => String c p :: ps
           end
  end.

(** Every character of the string satisfies [p]. *)
Fixpoint all (p : ascii -> bool) (s : string) : bool :=
  match s with
  | EmptyString => true
  | String c rest => p c && all p rest
  end.

(** Number of occurrences of a character. *)
Fixpoint count (c : ascii) (s : string) : nat :=
  match s with
  | EmptyString => 0
  | String d rest => (if Ascii.eqb d c then 1 else 0) + count c rest
  end.

Definition in_range (lo hi c : ascii) : bool :=
  (nat_of_ascii lo <=? nat_of_ascii c)%nat && (nat_of_ascii c <=? nat_of_ascii hi)%nat.

Definition is_digit (c : ascii) : bool := in_range "0" "9" c.
Definition is_lower_hex (c : ascii) : bool := is_digit c || in_range "a" "f" c.
Definition is_alpha (c : ascii) : bool := in_range "a" "z" c || in_range "A" "Z" c.
Definition is_alnum (c : ascii) : bool := is_alpha c || is_digit c.

Definition dot : ascii := ".".
Definition hyphen : ascii := "-".

End JsString.

(** ** [Buffer.prototype.toString('hex')] *)

Module Hex.

Definition digit (n : N) : ascii :=
  match n with
  | 0 => "0" | 1 => "1" | 2 => "2" | 3 => "3" | 4 => "4" | 5 => "5"
  | 6 => "6" | 7 => "7" | 8 => "8" | 9 => "9" | 10 => "a" | 11 => "b"
  | 12 => "c" | 13 => "d" | 14 => "e" | _ => "f"
  end%N%char.

(** Two lowercase digits per byte, the high nibble first. *)
Definition of_byte (b : byte) (rest : string) : string :=
  let n := Byte.to_N b in
  String (digit (n / 16)) (String (digit (n mod 16)) rest).

Definition toString (buf : list byte) : string :=
  fold_right of_byte EmptyString buf.

(** The value of a digit, for reading an encoding back. *)
Definition digit_value (c : ascii) : N :=
  let n := N_of_ascii c in
  (if 97 <=? n then n - 87 else n - 48)%N.

End Hex.

(** ** 32-bit words and byte conversions shared by the two digests *)

Module Word32.
Local Open Scope Z_scope.

Definition wrap (x : Z) : Z := x mod 2 ^ 32.
Definition add (x y : Z) : Z := wrap (x + y).
Definition not (x : Z) : Z := Z.lxor x 0xffffffff.
Definition rotl (x n : Z) : Z := wrap (Z.lor (Z.shiftl x n) (Z.shiftr x (32 - n))).
Definition rotr (x n : Z) : Z := wrap (Z.lor (Z.shiftr x n) (Z.shiftl x (32 - n))).

Definition byte_of_Z (z : Z) : byte :=
  match Byte.of_N (Z.to_N (z mod 256)) with
  | Some b => b
  | None => x00
  end.

Definition Z_of_byte (b : byte) : Z := Z.of_N (Byte.to_N b).

(** The four bytes of a word, least significant first. *)
Definition le_bytes (w : Z) : list byte :=
  [byte_of_Z w; byte_of_Z (Z.shiftr w 8); byte_of_Z (Z.shiftr w 16); byte_of_Z (Z.shiftr w 24)].

(** The four bytes of a word, most significant first. *)
Definition be_bytes (w : Z) : list byte := rev (le_bytes w).

(** The eight bytes of a 64-bit length. *)
Definition le_bytes64 (n : Z) : list byte :=
  le_bytes (n mod 2 ^ 32) ++ le_bytes (Z.shiftr n 32 mod 2 ^ 32).
Definition be_bytes64 (n : Z) : list byte := rev (le_bytes64 n).

Fixpoint le_words (bs : list Z) : list Z :=
  match bs with
  | b0 :: b1 :: b2 :: b3 :: rest =>
      (b0 + Z.shiftl b1 8 + Z.shiftl b2 16 + Z.shiftl b3 24) :: le_words rest
  | _ => []
  end.

Fixpoint be_words (bs : list Z) : list Z :=
  match bs with
  | b0 :: b1 :: b2 :: b3 :: rest =>
      (Z.shiftl b0 24 + Z.shiftl b1 16 + Z.shiftl b2 8 + b3) :: be_words rest
  | _ => []
  end.

(** Successive blocks of 64 bytes; [fuel] bounds the number of blocks. *)
Fixpoint blocks (fuel : nat) (bs : list Z) : list (list Z) :=
  match fuel, bs with
  | O, _ => []
  | _, [] => []
  | S fuel', _ => firstn 64 bs :: blocks fuel' (skipn 64 bs)
  end.

(** The message followed by the byte 0x80 and by zero bytes up to
    56 modulo 64; the 64-bit length in bits follows, in the byte
    order of the digest. *)
Definition pad_zeros (len : nat) : nat := Z.to_nat ((55 - Z.of_nat len) mod 64).

Definition padded (len64 : Z -> list byte) (msg : list byte) : list Z :=
  map Z_of_byte
      (msg ++ [x80] ++ repeat x00 (pad_zeros (List.length msg))
           ++ len64 (8 * Z.of_nat (List.length msg))).

End Word32.

(** ** MD5 (RFC 1321), as [crypto.createHash('md5')] computes it *)

Module MD5.
Import Word32.
Local Open Scope Z_scope.

Definition K : list Z :=
  [ 0xd76aa478; 0xe8c7b756; 0x242070db; 0xc1bdceee;
    0xf57c0faf; 0x4787c62a; 0xa8304613; 0xfd469501;
    0x698098d8; 0x8b44f7af; 0xffff5bb1; 0x895cd7be;
    0x6b901122; 0xfd987193; 0xa679438e; 0x49b40821;
    0xf61e2562; 0xc040b340; 0x265e5a51; 0xe9b6c7aa;
    0xd62f105d; 0x02441453; 0xd8a1e681; 0xe7d3fbc8;
    0x21e1cde6; 0xc33707d6; 0xf4d50d87; 0x455a14ed;
    0xa9e3e905; 0xfcefa3f8; 0x676f02d9; 0x8d2a4c8a;
    0xfffa3942; 0x8771f681; 0x6d9d6122; 0xfde5380c;
    0xa4beea44; 0x4bdecfa9; 0xf6bb4b60; 0xbebfbc70;
    0x289b7ec6; 0xeaa127fa; 0xd4ef3085; 0x04881d05;
    0xd9d4d039; 0xe6db99e5; 0x1fa27cf8; 0xc4ac5665;
    0xf4292244; 0x432aff97; 0xab9423a7; 0xfc93a039;
    0x655b59c3; 0x8f0ccc92; 0xffeff47d; 0x85845dd1;
    0x6fa87e4f; 0xfe2ce6e0; 0xa3014314; 0x4e0811a1;
    0xf7537e82; 0xbd3af235; 0x2ad7d2bb; 0xeb86d391 ].

Definition shifts : list Z :=
  [ 7; 12; 17; 22; 7; 12; 17; 22; 7; 12; 17; 22; 7; 12; 17; 22;
    5; 9; 14; 20; 5; 9; 14; 20; 5; 9; 14; 20; 5; 9; 14; 20;
    4; 11; 16; 23; 4; 11; 16; 23; 4; 11; 16; 23; 4; 11; 16; 23;
    6; 10; 15; 21; 6; 10; 15; 21; 6; 10; 15; 21; 6; 10; 15; 21 ].

Definition state : Type := (Z * Z * Z * Z)%type.

Definition init : state := (0x67452301, 0xefcdab89, 0x98badcfe, 0x10325476).

Definition step (M : list Z) (st : state) (i : nat) : state :=
  let '(a, b, c, d) := st in
  let '(f, g) :=
    if (i <? 16)%nat then (Z.lor (Z.land b c) (Z.land (not b) d), i)
    else if (i <? 32)%nat then (Z.lor (Z.land d b) (Z.land (not d) c), (5 * i + 1) mod 16)%nat
    else if (i <? 48)%nat then (Z.lxor (Z.lxor b c) d, (3 * i + 5) mod 16)%nat
    else (Z.lxor c (Z.lor b (not d)), (7 * i) mod 16)%nat in
  let f' := add (add (add f a) (nth i K 0)) (nth g M 0) in
  (d, add b (rotl f' (nth i shifts 0)), b, c).

Definition compress (st : state) (block : list Z) : state :=
  let '(a0, b0, c0, d0) := st in
  let '(a, b, c, d) := fold_left (step (le_words block)) (seq 0 64) st in
  (add a0 a, add b0 b, add c0 c, add d0 d).

Definition digest (msg : list byte) : list byte :=
  let bs := padded le_bytes64 msg in
  let '(a, b, c, d) := fold_left compress (blocks (List.length bs) bs) init in
  le_bytes a ++ le_bytes b ++ le_bytes c ++ le_bytes d.

End MD5.

(** ** SHA-256 (FIPS 180-4), as [crypto.createHash('sha256')] computes it *)

Module SHA256.
Import Word32.
Local Open Scope Z_scope.

(** The first 64 primes. *)
Definition primes : list Z :=
  [ 2; 3; 5; 7; 11; 13; 17; 19; 23; 29; 31; 37; 41; 43; 47; 53;
    59; 61; 67; 71; 73; 79; 83; 89; 97; 101; 103; 107; 109; 113; 127; 131;
    137; 139; 149; 151; 157; 163; 167; 173; 179; 181; 191; 193; 197; 199; 211; 223;
    227; 229; 233; 239; 241; 251; 257; 263; 269; 271; 277; 281; 283; 293; 307; 311 ].

(** The largest [r] below [2 ^ bits] above [acc] with [r ^ k <= n], by
    bisection from the highest bit. *)
Fixpoint root_bits (k n : Z) (bits : nat) (acc : Z) : Z :=
  match bits with
  | O => acc
  | S bits' =>
      let candidate := acc + 2 ^ Z.of_nat bits' in
      if candidate ^ k <=? n then root_bits k n bits' candidate
      else root_bits k n bits' acc
  end.

(** The first 32 bits of the fractional part of the [k]-th root of [p]. *)
Definition root_fraction (k p : Z) : Z :=
  root_bits k (p * 2 ^ (32 * k)) 40 0 mod 2 ^ 32.

(** The round constants: from the cube roots of the first 64 primes. *)
Definition K : list Z := Eval vm_compute in map (root_fraction 3) primes.

(** The initial hash value: from the square roots of the first 8 primes. *)
Definition init : list Z := Eval vm_compute in map (root_fraction 2) (firstn 8 primes).

Definition ssig0 (x : Z) : Z := Z.lxor (Z.lxor (rotr x 7) (rotr x 18)) (Z.shiftr x 3).
Definition ssig1 (x : Z) : Z := Z.lxor (Z.lxor (rotr x 17) (rotr x 19)) (Z.shiftr x 10).
Definition bsig0 (x : Z) : Z := Z.lxor (Z.lxor (rotr x 2) (rotr x 13)) (rotr x 22).
Definition bsig1 (x : Z) : Z := Z.lxor (Z.lxor (rotr x 6) (rotr x 11)) (rotr x 25).
Definition ch (x y z : Z) : Z := Z.lxor (Z.land x y) (Z.land (not x) z).
Definition maj (x y z : Z) : Z := Z.lxor (Z.lxor (Z.land x y) (Z.land x z)) (Z.land y z).

(** The message schedule: the 16 words of the block, extended to 64. *)
Definition extend (W : list Z) (t : nat) : list Z :=
  W ++ [add (add (add (ssig1 (nth (t - 2) W 0)) (nth (t - 7) W 0))
                 (ssig0 (nth (t - 15) W 0)))
            (nth (t - 16) W 0)].

Definition schedule (block : list Z) : list Z :=
  fold_left extend (seq 16 48) (be_words block).

Definition state : Type := (Z * Z * Z * Z * Z * Z * Z * Z)%type.

Definition round (W : list Z) (st : state) (t : nat) : state :=
  let '(a, b, c, d, e, f, g, h) := st in
  let t1 := add (add (add (add h (bsig1 e)) (ch e f g)) (nth t K 0)) (nth t W 0) in
  let t2 := add (bsig0 a) (maj a b c) in
  (add t1 t2, a, b, c, add d t1, e, f, g).

Definition compress (st : state) (block : list Z) : state :=
  let '(a0, b0, c0, d0, e0, f0, g0, h0) := st in
  let '(a, b, c, d, e, f, g, h) := fold_left (round (schedule block)) (seq 0 64) st in
  (add a0 a, add b0 b, add c0 c, add d0 d, add e0 e, add f0 f, add g0 g, add h0 h).

Definition init_state : state :=
  (nth 0 init 0, nth 1 init 0, nth 2 init 0, nth 3 init 0,
   nth 4 init 0, nth 5 init 0, nth 6 init 0, nth 7 init 0).

Definition digest (msg : list byte) : list byte :=
  let bs := padded be_bytes64 msg in
  let '(a, b, c, d, e, f, g, h) := fold_left compress (blocks (List.length bs) bs) init_state in
  be_bytes a ++ be_bytes b ++ be_bytes c ++ be_bytes d
    ++ be_bytes e ++ be_bytes f ++ be_bytes g ++ be_bytes h.

End SHA256.

(** ** Regular expressions: [RegExp.prototype.test]

    The two patterns of the source use character classes, concatenation
    and counted repetition, and are anchored at both ends.  They have no
    back-reference and no look-around, so that [test] decides membership
    of the whole string in the language of the pattern.  The matcher
    below takes derivatives of the pattern, character by character. *)

Module RegExp.

(** A member of a bracketed class: a range [lo-hi] or one character. *)
Inductive class_item : Type :=
| Range (lo hi : ascii)
| Single (c : ascii).

Definition item_mem (c : ascii) (i : class_item) : bool :=
  match i with
  | Range lo hi => JsString.in_range lo hi c
  | Single d => Ascii.eqb c d
  end.

Definition class_mem (items : list class_item) (c : ascii) : bool :=
  existsb (item_mem c) items.

Inductive regex : Type :=
| Void                                    (* matches nothing *)
| Eps                                     (* matches the empty string *)
| Class (items : list class_item)         (* one character of a class *)
| Seq (r1 r2 : regex)
| Alt (r1 r2 : regex)
| Rep (r : regex) (lo : nat) (hi : option nat).  (* r{lo,hi}, r{lo,} *)

(** The escapes and quantifiers the source uses. *)
Definition digit_class : regex := Class [Range "0" "9"].          (* \d *)
Definition literal (c : ascii) : regex := Class [Single c].       (* \. and - *)
Definition plus (r : regex) : regex := Rep r 1 None.              (* r+ *)
Definition exactly (n : nat) (r : regex) : regex := Rep r n (Some n).  (* r{n} *)

Definition in_bounds (k lo : nat) (hi : option nat) : Prop :=
  lo <= k /\ match hi with Some h => k <= h | None => True end.

Definition bounds_ok (lo : nat) (hi : option nat) : bool :=
  match hi with Some h => (lo <=? h)%nat | None => true end.

(** [k] strings of the language [L], one after the other. *)
Fixpoint power (L : string -> Prop) (k : nat) (s : string) : Prop :=
  match k with
  | O => s = EmptyString
  | S k' => exists s1 s2, s = s1 ++ s2 /\ L s1 /\ power L k' s2
  end.

(** The language of a pattern. *)
Fixpoint lang (r : regex) (s : string) : Prop :=
  match r with
  | Void => False
  | Eps => s = EmptyString
  | Class items => exists c, s = String c EmptyString /\ class_mem items c = true
  | Seq r1 r2 => exists s1 s2, s = s1 ++ s2 /\ lang r1 s1 /\ lang r2 s2
  | Alt r1 r2 => lang r1 s \/ lang r2 s
  | Rep r1 lo hi => exists k, in_bounds k lo hi /\ power (lang r1) k s
  end.

Fixpoint nullable (r : regex) : bool :=
  match r with
  | Void => false
  | Eps => true
  | Class _ => false
  | Seq r1 r2 => nullable r1 && nullable r2
  | Alt r1 r2 => nullable r1 || nullable r2
  | Rep r1 lo hi => bounds_ok lo hi && ((lo =? 0)%nat || nullable r1)
  end.

Definition mkSeq (r1 r2 : regex) : regex :=
  match r1 with
  | Void => Void
  | Eps => r2
  | _ => Seq r1 r2
  end.

Definition mkAlt (r1 r2 : regex) : regex :=
  match r1, r2 with
  | Void, _ => r2
  | _, Void => r1
  | _, _ => Alt r1 r2
  end.

(** The derivative of a pattern by one character. *)
Fixpoint der (a : ascii) (r : regex) : regex :=
  match r with
  | Void => Void
  | Eps => Void
  | Class items => if class_mem items a then Eps else Void
  | Seq r1 r2 =>
      if nullable r1 then mkAlt (mkSeq (der a r1) r2) (der a r2)
      else mkSeq (der a r1) r2
  | Alt r1 r2 => mkAlt (der a r1) (der a r2)
  | Rep r1 lo hi =>
      match hi with
      | Some O => Void
      | _ => mkSeq (der a r1) (Rep r1 (pred lo) (option_map pred hi))
      end
  end.

Fixpoint ders (r : regex) (s : string) : regex :=
  match s with
  | EmptyString => r
  | String a rest => ders (der a r) rest
  end.

(** [/^r$/.test(s)] *)
Definition test (r : regex) (s : string) : bool := nullable (ders r s).

End RegExp.

(** ** Dates

    [new Date(s)] parses with the engine's parser, which is a field of the
    world below; [Date_only.parse] is one such parser, used in the example
    worlds: it reads the date-only form of the ECMAScript date-time string
    format, as UTC, accepts the dates of the calendar only, and yields NaN
    on everything else.  [Date_only.parse_rolling] is the parser of Node's
    engine on that form. *)

Module Date_only.
Local Open Scope Z_scope.

Definition digit_val (c : ascii) : Z := Z.of_nat (nat_of_ascii c) - 48.

Definition is_leap (y : Z) : bool :=
  ((y mod 4 =? 0) && negb (y mod 100 =? 0)) || (y mod 400 =? 0).

Definition days_in_month (y m : Z) : Z :=
  match m with
  | 2 => if is_leap y then 29 else 28
  | 4 | 6 | 9 | 11 => 30
  | _ => 31
  end.

(** Days from 1970-01-01 to the given civil date (proleptic Gregorian). *)
Definition days_from_civil (y m d : Z) : Z :=
  let y' := if m <=? 2 then y - 1 else y in
  let era := y' / 400 in
  let yoe := y' - era * 400 in
  let mp := (m + 9) mod 12 in
  let doy := (153 * mp + 2) / 5 + d - 1 in
  let doe := yoe * 365 + yoe / 4 - yoe / 100 + doy in
  era * 146097 + doe - 719468.

Definition ms_per_day : Z := 86400000.

Definition parse (s : string) : option Z :=
  match s with
  | String y1 (String y2 (String y3 (String y4 (String sep1
      (String m1 (String m2 (String sep2 (String d1 (String d2 EmptyString))))))))) =>
      if JsString.all JsString.is_digit
           (String y1 (String y2 (String y3 (String y4
             (String m1 (String m2 (String d1 (String d2 EmptyString))))))))
         && Ascii.eqb sep1 JsString.hyphen && Ascii.eqb sep2 JsString.hyphen
      then
        let y := 1000 * digit_val y1 + 100 * digit_val y2 + 10 * digit_val y3 + digit_val y4 in
        let m := 10 * digit_val m1 + digit_val m2 in
        let d := 10 * digit_val d1 + digit_val d2 in
        if (1 <=? m) && (m <=? 12) && (1 <=? d) && (d <=? days_in_month y m)
        then Some (days_from_civil y m d * ms_per_day)
        else None
      else None
  | _ => None
  end.

(** The date-only form as Node's engine (V8) reads it.  The engine is not
    part of src/; this follows its known behaviour: the month is checked
    against 1 to 12 and the day against 1 to 31 whatever the month, and
    the time value is that of the first of the month plus the days, so
    that a day past the end of the month rolls over into the next month
    (2099-02-31 is read as 2099-03-03).  On strings of another form,
    which [isValidExpirationDate] rejects by its pattern, it yields NaN
    here. *)
Definition parse_rolling (s : string) : option Z :=
  match s with
  | String y1 (String y2 (String y3 (String y4 (String sep1
      (String m1 (String m2 (String sep2 (String d1 (String d2 EmptyString))))))))) =>
      if JsString.all JsString.is_digit
           (String y1 (String y2 (String y3 (String y4
             (String m1 (String m2 (String d1 (String d2 EmptyString))))))))
         && Ascii.eqb sep1 JsString.hyphen && Ascii.eqb sep2 JsString.hyphen
      then
        let y := 1000 * digit_val y1 + 100 * digit_val y2 + 10 * digit_val y3 + digit_val y4 in
        let m := 10 * digit_val m1 + digit_val m2 in
        let d := 10 * digit_val d1 + digit_val d2 in
        if (1 <=? m) && (m <=? 12) && (1 <=? d) && (d <=? 31)
        then Some ((days_from_civil y m 1 + (d - 1)) * ms_per_day)
        else None
      else None
  | _ => None
  end.

End Date_only.

(** ** The Node.js runtime: effects, exceptions, the world *)

Module Node.

(** The two algorithm names the source hands to [crypto.createHash]. *)
Inductive HashAlg : Type := sha256 | md5.

(** What a run does to its surroundings, in the order it does it. *)
Inductive Event : Type :=
| ReadClock                      (* new Date() *)
| MachineIdSync                  (* machineIdSync() *)
| CreateHash (alg : HashAlg)     (* crypto.createHash(alg) *)
| RandomBytes (n : nat)          (* crypto.randomBytes(n) *)
| ConsoleLog (line : string)     (* console.log, standard output *)
| ConsoleError (line : string)   (* console.error, standard error *)
| ProcessExit (code : Z).        (* process.exit(code) *)

(** The result of evaluating a piece of code: a value, or a thrown
    [Error], of which only the message is ever read. *)
Inductive Completion (A : Type) : Type :=
| Normal (a : A)
| Throw (message : string).
Arguments Normal {A} a.
Arguments Throw {A} message.

Record World : Type := mkWorld {
  now : Z;                              (* the clock, in milliseconds *)
  date_parse : string -> option Z;      (* the engine's Date parser *)
  machine_id : Completion string;       (* what machineIdSync will do *)
  entropy : list byte;                  (* the bytes the random source holds *)
  trace : list Event                    (* the events so far, oldest first *)
}.

Definition M (A : Type) : Type := World -> Completion A * World.

Definition ret {A} (a : A) : M A := fun w => (Normal a, w).

Definition bind {A B} (m : M A) (k : A -> M B) : M B :=
  fun w => match m w with
           | (Normal a, w') => k a w'
           | (Throw msg, w') => (Throw msg, w')
           end.

Definition throw {A} (message : string) : M A := fun w => (Throw message, w).

(** [try { body } catch (err) { handler(err.message) }] *)
Definition try_catch {A} (body : M A) (handler : string -> M A) : M A :=
  fun w => match body w with
           | (Normal a, w') => (Normal a, w')
           | (Throw msg, w') => handler msg w'
           end.

Definition log (e : Event) (w : World) : World :=
  mkWorld (now w) (date_parse w) (machine_id w) (entropy w) (trace w ++ [e]).

Definition emit (e : Event) : M unit := fun w => (Normal tt, log e w).

(** The value a computation yields in a world, and the world it leaves. *)
Definition value {A} (m : M A) (w : World) : Completion A := fst (m w).
Definition after {A} (m : M A) (w : World) : World := snd (m w).

(** Several events, one after the other. *)
Definition logs (es : list Event) (w : World) : World :=
  fold_left (fun w' e => log e w') es w.

(** The same world with an empty trace. *)
Definition fresh (w : World) : World :=
  mkWorld (now w) (date_parse w) (machine_id w) (entropy w) [].

(** The events a computation adds, read off an empty trace. *)
Definition events {A} (m : M A) (w : World) : list Event :=
  trace (after m (fresh w)).

(** What the caller of the command sees of a run: the lines on standard
    output, the lines on standard error, and the exit status (0 when the
    run never calls [process.exit]). *)
Definition stdout (es : list Event) : list string :=
  flat_map (fun e => match e with ConsoleLog l => [l] | _ => [] end) es.

Definition stderr (es : list Event) : list string :=
  flat_map (fun e => match e with ConsoleError l => [l] | _ => [] end) es.

Fixpoint exit_status (es : list Event) : Z :=
  match es with
  | [] => 0
  | ProcessExit code :: _ => code
  | _ :: rest => exit_status rest
  end.

(** *** console, process *)

Definition console_log (line : string) : M unit := emit (ConsoleLog line).
(** With two string arguments the console prints them with a space between. *)
Definition console_log2 (a b : string) : M unit := emit (ConsoleLog (a ++ " " ++ b)).
Definition console_error2 (a b : string) : M unit := emit (ConsoleError (a ++ " " ++ b)).
Definition process_exit (code : Z) : M unit := emit (ProcessExit code).

(** *** Date *)

(** [new Date(s).getTime()], NaN being [None]. *)
Definition Date_of_string (s : string) : M (option Z) :=
  fun w => (Normal (date_parse w s), w).

(** [new Date().getTime()] *)
Definition Date_current : M (option Z) :=
  fun w => (Normal (Some (now w)), log ReadClock w).

Definition isNaN (t : option Z) : bool :=
  match t with None => true | Some _ => false end.

(** [a > b] on time values: false as soon as one of them is NaN. *)
Definition gt (a b : option Z) : bool :=
  match a, b with
  | Some x, Some y => (y <? x)%Z
  | _, _ => false
  end.

(** *** node-machine-id *)

Definition machineIdSync : M string :=
  fun w => (machine_id w, log MachineIdSync w).

(** *** crypto *)

(** A [Hash] object: its algorithm and the bytes it was fed. *)
Record Hash : Type := mkHash { hash_alg : HashAlg; hash_data : list byte }.

Definition createHash (alg : HashAlg) : M Hash :=
  fun w => (Normal (mkHash alg []), log (CreateHash alg) w).

(** [hash.update(s)]: the UTF-8 bytes of [s] are appended. *)
Definition update (h : Hash) (s : string) : Hash :=
  mkHash (hash_alg h) (hash_data h ++ list_byte_of_string s).

(** [hash.digest('hex')] *)
Definition digest_hex (h : Hash) : string :=
  Hex.toString (match hash_alg h with
                | sha256 => SHA256.digest (hash_data h)
                | md5 => MD5.digest (hash_data h)
                end).

(** [crypto.randomBytes(n)]: the next [n] bytes of the random source,
    or an exception when the source cannot deliver them. *)
Definition randomBytes (n : nat) : M (list byte) :=
  fun w =>
    let w' := log (RandomBytes n) w in
    if (n <=? List.length (entropy w))%nat
    then (Normal (firstn n (entropy w)),
          mkWorld (now w') (date_parse w') (machine_id w') (skipn n (entropy w')) (trace w'))
    else (Throw "random source failure", w').

Module Notations.
Notation "x <- m ;; k" := (bind m (fun x => k))
  (at level 61, m at next level, right associativity).
Notation "m ;;; k" := (bind m (fun _ => k))
  (at level 61, right associativity).
End Notations.

End Node.

(** ** src/main.js *)

Module Main.
Import Node Node.Notations RegExp.

Definition alnum : list class_item := [Range "a" "z"; Range "A" "Z"; Range "0" "9"].
Definition alnum_hyphen : list class_item := alnum ++ [Single "-"].
Definition alpha : list class_item := [Range "a" "z"; Range "A" "Z"].

(** The group [(?:\.[a-zA-Z]{2,})] of the domain pattern. *)
Definition segment : regex := Seq (literal ".") (Rep (Class alpha) 2 None).

(** [/^[a-zA-Z0-9][a-zA-Z0-9-]{1,61}[a-zA-Z0-9](?:\.[a-zA-Z]{2,})+$/] *)
Definition domainRegex : regex :=
  Seq (Class alnum)
    (Seq (Rep (Class alnum_hyphen) 1 (Some 61))
      (Seq (Class alnum) (plus segment))).

(** [/^\d{4}-\d{2}-\d{2}$/] *)
Definition dateRegex : regex :=
  Seq (exactly 4 digit_class)
    (Seq (literal "-")
      (Seq (exactly 2 digit_class)
        (Seq (literal "-") (exactly 2 digit_class)))).

Definition isValidDomain (domain : string) : bool :=
  test domainRegex domain.

Definition isValidExpirationDate (dateString : string) : M bool :=
  date <- Date_of_string dateString ;;
  today <- Date_current ;;
  ret (negb (isNaN date) && gt date today && test dateRegex dateString).

Definition generateLicenseKey (domain expire hardwareId : string) : M string :=
  try_catch
    (hash <- createHash sha256 ;;
     buf <- randomBytes 16 ;;
     let salt := Hex.toString buf in
     let hash := update hash (salt ++ "-" ++ domain ++ "-" ++ expire ++ "-" ++ hardwareId) in
     ret (salt ++ "." ++ digest_hex hash))
    (fun _ => throw "Failed to generate license key").

Definition calculateChecksum (data : string) : M string :=
  hash <- createHash md5 ;;
  ret (JsString.substring (digest_hex (update hash data)) 0 8).

Definition addChecksum (licenseKey : string) : M string :=
  checksum <- calculateChecksum licenseKey ;;
  ret (licenseKey ++ "." ++ checksum).

(** The handler both commands share:
    [catch (err) { console.error('Error:', err.message); process.exit(1); }] *)
Definition report (message : string) : M unit :=
  console_error2 "Error:" message ;;; process_exit 1.

(** The action of the [generate] command. *)
Definition generate (domain expire : string) : M unit :=
  try_catch
    (if negb (isValidDomain domain) then throw "Invalid domain format"
     else
       valid <- isValidExpirationDate expire ;;
       if negb valid
       then throw "Invalid expiration date. Use format YYYY-MM-DD and date must be in the future"
       else
         hardwareId <- machineIdSync ;;
         licenseKey <- generateLicenseKey domain expire hardwareId ;;
         finalLicenseKey <- addChecksum licenseKey ;;
         console_log2 "Generated License Key:" finalLicenseKey)
    report.

(** The action of the [verify] command. *)
Definition verify (key : string) : M unit :=
  try_catch
    (let parts := JsString.split "." key in
     if negb (List.length parts =? 3)%nat then throw "Invalid license key format"
     else
       let salt := nth 0 parts "" in
       let hash := nth 1 parts "" in
       let checksum := nth 2 parts "" in
       expectedChecksum <- calculateChecksum (salt ++ "." ++ hash) ;;
       if negb (String.eqb checksum expectedChecksum)
       then throw "Invalid license key: checksum mismatch"
       else
         console_log "License key is valid" ;;;
         console_log2 "Salt:" salt ;;;
         console_log2 "Hash:" hash ;;;
         console_log2 "Checksum:" checksum)
    report.

End Main.

(** ** The specification's vocabulary

    These definitions follow the words of the specification, not the
    code; the theorems of Part II compare the code with them. *)

Module Spec.
Import JsString.

(** [MD5(data)] and [SHA256(data)] encoded as lowercase hexadecimal. *)
Definition md5_hex (data : string) : string :=
  Hex.toString (MD5.digest (list_byte_of_string data)).
Definition sha256_hex (data : string) : string :=
  Hex.toString (SHA256.digest (list_byte_of_string data)).

(** [checksum(data)]: the MD5 digest in hexadecimal, truncated to its
    first 8 characters. *)
Definition checksum (data : string) : string :=
  JsString.substring (md5_hex data) 0 8.

(** A string of exactly [n] lowercase hexadecimal characters. *)
Definition lower_hex (n : nat) (s : string) : bool :=
  (String.length s =? n)%nat && all is_lower_hex s.

(** The key string format: salt (32), digest (64) and checksum (8),
    joined by dots. *)
Definition key_format (key : string) : bool :=
  match split dot key with
  | [salt; digest; sum] => lower_hex 32 salt && lower_hex 64 digest && lower_hex 8 sum
  | _ => false
  end.

(** Four digits, dash, two digits, dash, two digits. *)
Definition date_pattern (s : string) : bool :=
  match s with
  | String y1 (String y2 (String y3 (String y4 (String sep1
      (String m1 (String m2 (String sep2 (String d1 (String d2 EmptyString))))))))) =>
      is_digit y1 && is_digit y2 && is_digit y3 && is_digit y4
      && Ascii.eqb sep1 hyphen
      && is_digit m1 && is_digit m2
      && Ascii.eqb sep2 hyphen
      && is_digit d1 && is_digit d2
  | _ => false
  end.

Definition is_alnum_or_hyphen (c : ascii) : bool := is_alnum c || Ascii.eqb c hyphen.

Definition first_char (s : string) : option ascii :=
  match s with
  | EmptyString => None
  | String c _ => Some c
  end.

Fixpoint last_char (s : string) : option ascii :=
  match s with
  | EmptyString => None
  | String c EmptyString => Some c
  | String _ rest => last_char rest
  end.

(** The string without its last character. *)
Fixpoint drop_last (s : string) : string :=
  match s with
  | EmptyString => EmptyString
  | String c EmptyString => EmptyString
  | String c rest => String c (drop_last rest)
  end.

(** The string without its first and last characters. *)
Definition middle (s : string) : string :=
  match s with
  | EmptyString => EmptyString
  | String _ rest => drop_last rest
  end.

Definition holds (p : ascii -> bool) (c : option ascii) : bool :=
  match c with
  | Some x => p x
  | None => false
  end.

(** The first label: it starts and ends with an alphanumeric character,
    its middle is alphanumeric or hyphen, its length is from 3 to 63. *)
Definition label_ok (l : string) : bool :=
  holds is_alnum (first_char l) && holds is_alnum (last_char l)
  && all is_alnum_or_hyphen (middle l)
  && (3 <=? String.length l)%nat && (String.length l <=? 63)%nat.

(** A later segment: two or more alphabetic characters. *)
Definition segment_ok (g : string) : bool :=
  (2 <=? String.length g)%nat && all is_alpha g.

(** The accepted domains: a first label followed by one or more
    dot-separated segments. *)
Definition domain_grammar (d : string) : bool :=
  match split dot d with
  | label :: seg :: segs => label_ok label && forallb segment_ok (seg :: segs)
  | _ => false
  end.

(** The segments one after the other, each behind its dot. *)
Fixpoint dotted (segs : list string) : string :=
  match segs with
  | [] => EmptyString
  | g :: rest => String dot (g ++ dotted rest)
  end.

Definition starts_with (c : ascii) (s : string) : bool := holds (Ascii.eqb c) (first_char s).
Definition ends_with (c : ascii) (s : string) : bool := holds (Ascii.eqb c) (last_char s).

End Spec.

(** ** Example worlds and inputs *)

Module Examples.
Import Node.

Definition salt_bytes : list byte :=
  [x00; x01; x02; x03; x04; x05; x06; x07; x08; x09; x0a; x0b; x0c; x0d; x0e; xff].

Definition other_salt_bytes : list byte :=
  [x10; x01; x02; x03; x04; x05; x06; x07; x08; x09; x0a; x0b; x0c; x0d; x0e; xff].

(** 2026-11-01T00:00:00Z on the clock, a machine id, and 17 bytes in
    the random source. *)
Definition world : World :=
  mkWorld 1793491200000 Date_only.parse (Normal "abc123") (salt_bytes ++ [x11]) [].

(** The same with another salt to come. *)
Definition other_world : World :=
  mkWorld 1793491200000 Date_only.parse (Normal "abc123") (other_salt_bytes ++ [x11]) [].

(** A world whose parser is lenient: it accepts every string as the
    same future date. *)
Definition lenient_world : World :=
  mkWorld 1793491200000 (fun _ => Some 4102358400000%Z) (Normal "abc123") salt_bytes [].

(** The example world with the parser of Node's engine. *)
Definition node_world : World :=
  mkWorld 1793491200000 Date_only.parse_rolling (Normal "abc123") (salt_bytes ++ [x11]) [].

(** The key [generate] prints in [world] for example.com, 2099-12-31. *)
Definition key : string :=
  "000102030405060708090a0b0c0d0eff.bf4eb9306f995ce1b28f125bdd04e7039593324fc2074e2613ea0ddc16d1faa9.d1538ce3".

(** The key [generate] prints in [node_world] for example.com, 2099-02-31. *)
Definition rolled_key : string :=
  "000102030405060708090a0b0c0d0eff.16141bc1a8550345d24c03c944e1c519075ca85d38ad96dcd52793e33f25b64e.10c8591f".

End Examples.

(* ================================================================== *)
(** * Part II: theorems *)
(* ================================================================== *)

(** ** Strings *)

Section StringFacts.
Import JsString.

Lemma append_empty_r (s : string) : s ++ "" = s.
Proof. induction s; simpl; congruence. Qed.

Lemma append_assoc (a b c : string) : (a ++ b) ++ c = a ++ (b ++ c).
Proof. induction a; simpl; congruence. Qed.

Lemma length_append (a b : string) :
  String.length (a ++ b) = String.length a + String.length b.
Proof. induction a; simpl; congruence. Qed.

Lemma all_append p (a b : string) : all p (a ++ b) = all p a && all p b.
Proof.
  induction a as [|c a IH]; simpl; [reflexivity|].
  rewrite IH. apply andb_assoc.
Qed.

Lemma count_append c (a b : string) : count c (a ++ b) = count c a + count c b.
Proof. induction a as [|d a IH]; simpl; [reflexivity|]. rewrite IH. lia. Qed.

Lemma all_impl (p q : ascii -> bool) (s : string) :
  (forall c, p c = true -> q c = true) -> all p s = true -> all q s = true.
Proof.
  intros Hpq. induction s as [|c s IH]; simpl; [reflexivity|].
  intros H. apply andb_true_iff in H. destruct H as [H1 H2].
  rewrite (Hpq _ H1), (IH H2). reflexivity.
Qed.

(** A string whose characters all differ from [c] does not contain [c]. *)
Lemma count_all_neq c (s : string) :
  all (fun d => negb (Ascii.eqb d c)) s = true -> count c s = 0.
Proof.
  induction s as [|d s IH]; simpl; [reflexivity|].
  intros H. apply andb_true_iff in H. destruct H as [H1 H2].
  destruct (Ascii.eqb d c); [discriminate|]. simpl. auto.
Qed.

Lemma count_zero_all c (s : string) :
  count c s = 0 -> all (fun d => negb (Ascii.eqb d c)) s = true.
Proof.
  induction s as [|d s IH]; simpl; [reflexivity|].
  destruct (Ascii.eqb d c); simpl; [discriminate|]. auto.
Qed.

(** *** [split] *)

Lemma split_not_nil sep s : split sep s <> [].
Proof.
  destruct s as [|c s]; simpl; [discriminate|].
  destruct (Ascii.eqb c sep); [discriminate|].
  destruct (split sep s); discriminate.
Qed.

(** The number of parts is the number of separators plus one. *)
Lemma length_split sep s : List.length (split sep s) = S (count sep s).
Proof.
  induction s as [|c s IH]; simpl; [reflexivity|].
  destruct (Ascii.eqb c sep); simpl; [congruence|].
  destruct (split sep s) eqn:E; simpl in *; [discriminate|]. exact IH.
Qed.

Lemma split_no_sep sep s : count sep s = 0 -> split sep s = [s].
Proof.
  induction s as [|c s IH]; simpl; [reflexivity|].
  destruct (Ascii.eqb c sep); simpl; [discriminate|].
  intros H. rewrite (IH H). reflexivity.
Qed.

Lemma split_app sep a r :
  count sep a = 0 -> split sep (a ++ String sep r) = a :: split sep r.
Proof.
  induction a as [|c a IH]; simpl.
  - intros _. rewrite Ascii.eqb_refl. reflexivity.
  - destruct (Ascii.eqb c sep); simpl; [discriminate|].
    intros H. rewrite (IH H). reflexivity.
Qed.

(** Joining the parts with the separator gives the string back. *)
Lemma concat_split sep s : String.concat (String sep "") (split sep s) = s.
Proof.
  induction s as [|c s IH]; simpl; [reflexivity|].
  destruct (Ascii.eqb c sep) eqn:E.
  - apply Ascii.eqb_eq in E. subst c.
    pose proof (split_not_nil sep s) as Hne.
    destruct (split sep s) as [|p ps]; [congruence|].
    simpl in *. rewrite IH. reflexivity.
  - pose proof (split_not_nil sep s) as Hne.
    destruct (split sep s) as [|p ps]; [congruence|].
    destruct ps as [|q ps]; simpl in *; rewrite <- IH; reflexivity.
Qed.


(** Three parts without separator, joined, split into themselves. *)
Lemma split_three sep a b c :
  count sep a = 0 -> count sep b = 0 -> count sep c = 0 ->
  split sep (a ++ String sep (b ++ String sep c)) = [a; b; c].
Proof.
  intros Ha Hb Hc.
  rewrite (split_app _ _ _ Ha), (split_app _ _ _ Hb), (split_no_sep _ _ Hc).
  reflexivity.
Qed.

(** A string with exactly one separator is two parts around it. *)
Lemma count_one_split sep s :
  count sep s = 1 ->
  exists a b, s = a ++ String sep b /\ count sep a = 0 /\ count sep b = 0.
Proof.
  induction s as [|c s IH]; simpl; [discriminate|].
  destruct (Ascii.eqb c sep) eqn:E; simpl; intros H.
  - apply Ascii.eqb_eq in E. subst c.
    exists "", s. repeat split; simpl; try reflexivity; lia.
  - destruct (IH H) as (a & b & -> & Ha & Hb).
    exists (String c a), b. simpl. rewrite E.
    repeat split; assumption.
Qed.

End StringFacts.

(** ** Hexadecimal encoding and the digests *)

Section HexFacts.
Import JsString.

Lemma hex_of_byte_lower (b : byte) : all is_lower_hex (Hex.of_byte b "") = true.
Proof. destruct b; reflexivity. Qed.

Lemma hex_toString_cons b buf :
  Hex.toString (b :: buf) = Hex.of_byte b "" ++ Hex.toString buf.
Proof. reflexivity. Qed.

Lemma hex_length buf : String.length (Hex.toString buf) = 2 * List.length buf.
Proof. induction buf as [|b buf IH]; simpl; [reflexivity|]. rewrite IH. lia. Qed.

Lemma hex_lower buf : all is_lower_hex (Hex.toString buf) = true.
Proof.
  induction buf as [|b buf IH]; [reflexivity|].
  rewrite hex_toString_cons, all_append, hex_of_byte_lower, IH. reflexivity.
Qed.

Lemma lower_hex_not_dot c : is_lower_hex c = true -> negb (Ascii.eqb c dot) = true.
Proof.
  intros H. destruct (Ascii.eqb c dot) eqn:E; [|reflexivity].
  apply Ascii.eqb_eq in E. subst c. discriminate H.
Qed.

(** A lowercase hexadecimal string contains no dot. *)
Lemma lower_hex_no_dot s : all is_lower_hex s = true -> count dot s = 0.
Proof.
  intros H. apply count_all_neq.
  apply (all_impl is_lower_hex); [apply lower_hex_not_dot | exact H].
Qed.

(** The first [2 n] characters encode the first [n] bytes. *)
Lemma hex_firstn n buf :
  String.substring 0 (2 * n) (Hex.toString buf) = Hex.toString (firstn n buf).
Proof.
  revert buf. induction n as [|n IH]; intros buf.
  - destruct buf; reflexivity.
  - destruct buf as [|b buf]; [reflexivity|].
    replace (2 * S n) with (S (S (2 * n))) by lia.
    simpl firstn. rewrite !hex_toString_cons. unfold Hex.of_byte.
    cbn [append String.substring]. rewrite IH. reflexivity.
Qed.

Lemma substring_all p n s : all p s = true -> all p (String.substring 0 n s) = true.
Proof.
  revert s. induction n as [|n IH]; intros [|c s]; simpl; try reflexivity.
  intros H. apply andb_true_iff in H. destruct H as [H1 H2].
  rewrite H1, (IH _ H2). reflexivity.
Qed.

Lemma substring_length n s :
  n <= String.length s -> String.length (String.substring 0 n s) = n.
Proof.
  revert s. induction n as [|n IH]; intros [|c s]; simpl; try reflexivity; try lia.
  intros H. rewrite IH; lia.
Qed.

(** Two bytes with the same two digits are the same byte. *)
Lemma hex_of_byte_inj b1 b2 : Hex.of_byte b1 "" = Hex.of_byte b2 "" -> b1 = b2.
Proof.
  intros H.
  assert (D : forall b, Byte.of_N (Hex.digit_value (Hex.digit (Byte.to_N b / 16)) * 16
                                   + Hex.digit_value (Hex.digit (Byte.to_N b mod 16))) = Some b)
    by (intros b; destruct b; reflexivity).
  unfold Hex.of_byte in H. cbv zeta in H. injection H as H1 H2.
  pose proof (D b1) as D1. rewrite H1, H2, (D b2) in D1. congruence.
Qed.

(** Buffers with the same encoding are equal. *)
Lemma hex_toString_inj buf1 buf2 :
  Hex.toString buf1 = Hex.toString buf2 -> buf1 = buf2.
Proof.
  revert buf2. induction buf1 as [|b1 buf1 IH]; intros [|b2 buf2] H;
    try reflexivity; try discriminate H.
  unfold Hex.toString in H. simpl in H. unfold Hex.of_byte in H at 1 3.
  cbv zeta in H. injection H as H1 H2 H3.
  f_equal.
  - apply hex_of_byte_inj. unfold Hex.of_byte. cbv zeta. congruence.
  - apply IH. exact H3.
Qed.

Lemma md5_digest_length msg : List.length (MD5.digest msg) = 16.
Proof.
  unfold MD5.digest.
  destruct (fold_left MD5.compress _ MD5.init) as [[[a b] c] d].
  reflexivity.
Qed.

Lemma sha256_digest_length msg : List.length (SHA256.digest msg) = 32.
Proof.
  unfold SHA256.digest.
  destruct (fold_left SHA256.compress _ SHA256.init_state) as [[[[[[[a b] c] d] e] f] g] h].
  reflexivity.
Qed.

Lemma lower_hex_toString n buf :
  List.length buf = n -> Spec.lower_hex (2 * n) (Hex.toString buf) = true.
Proof.
  intros H. unfold Spec.lower_hex.
  rewrite hex_length, H, Nat.eqb_refl, hex_lower. reflexivity.
Qed.

Lemma md5_hex_format data : Spec.lower_hex 32 (Spec.md5_hex data) = true.
Proof. apply (lower_hex_toString 16), md5_digest_length. Qed.

Lemma sha256_hex_format data : Spec.lower_hex 64 (Spec.sha256_hex data) = true.
Proof. apply (lower_hex_toString 32), sha256_digest_length. Qed.

Lemma lower_hex_parts n s :
  Spec.lower_hex n s = true -> String.length s = n /\ all is_lower_hex s = true.
Proof.
  unfold Spec.lower_hex. intros H. apply andb_true_iff in H.
  destruct H as [H1 H2]. apply Nat.eqb_eq in H1. split; assumption.
Qed.

(** The checksum is the encoding of the first four bytes of the digest. *)
Lemma checksum_first_bytes data :
  Spec.checksum data = Hex.toString (firstn 4 (MD5.digest (list_byte_of_string data))).
Proof. unfold Spec.checksum, Spec.md5_hex, JsString.substring. apply (hex_firstn 4). Qed.

Lemma checksum_format data : Spec.lower_hex 8 (Spec.checksum data) = true.
Proof.
  rewrite checksum_first_bytes. apply (lower_hex_toString 4).
  rewrite length_firstn, md5_digest_length. reflexivity.
Qed.

Lemma checksum_no_dot data : count dot (Spec.checksum data) = 0.
Proof. apply lower_hex_no_dot, (lower_hex_parts 8), checksum_format. Qed.

(** The digests agree with the test vectors of RFC 1321 and of
    FIPS 180-4. *)
Example md5_empty : Spec.md5_hex "" = "d41d8cd98f00b204e9800998ecf8427e".
Proof. vm_compute. reflexivity. Qed.

Example md5_abc : Spec.md5_hex "abc" = "900150983cd24fb0d6963f7d28e17f72".
Proof. vm_compute. reflexivity. Qed.

Example md5_two_blocks :
  Spec.md5_hex "12345678901234567890123456789012345678901234567890123456789012345678901234567890"
  = "57edf4a22be3c955ac49da2e2107b67a".
Proof. vm_compute. reflexivity. Qed.

Example sha256_empty :
  Spec.sha256_hex "" = "e3b0c44298fc1c149afbf4c8996fb92427ae41e4649b934ca495991b7852b855".
Proof. vm_compute. reflexivity. Qed.

Example sha256_abc :
  Spec.sha256_hex "abc" = "ba7816bf8f01cfea414140de5dae2223b00361a396177a9cb410ff61f20015ad".
Proof. vm_compute. reflexivity. Qed.

Example sha256_two_blocks :
  Spec.sha256_hex "abcdbcdecdefdefgefghfghighijhijkijkljklmklmnlmnomnopnopq"
  = "248d6a61d20638b8e5c026930c3e6039a33ce45964ff2167f6ecedd419db06c1".
Proof. vm_compute. reflexivity. Qed.

End HexFacts.

(** ** Regular expressions: the matcher decides the language *)

Section RegExpFacts.
Import RegExp JsString.

Lemma append_eq_empty (a b : string) : a ++ b = "" -> a = "" /\ b = "".
Proof. destruct a; simpl; [auto | discriminate]. Qed.

Lemma power_empty (L : string -> Prop) k : L "" -> power L k "".
Proof.
  intros H. induction k as [|k IH]; simpl; [reflexivity|].
  exists "", "". auto.
Qed.

(** A power that starts with a character [a]: its first non-empty
    factor starts with [a]. *)
Lemma power_cons (L : string -> Prop) k a s :
  power L k (String a s) <->
  exists k', k = S k' /\
    exists s1 s2, s = s1 ++ s2 /\ L (String a s1) /\ power L k' s2.
Proof.
  split.
  - induction k as [|k IH]; simpl; [discriminate|].
    intros (s1 & s2 & E & H1 & H2). exists k. split; [reflexivity|].
    destruct s1 as [|c s1]; simpl in E.
    + subst s2. destruct (IH H2) as (k' & -> & t1 & t2 & -> & Ht1 & Ht2).
      exists t1, t2. repeat split; try assumption.
      simpl. exists "", t2. auto.
    + injection E as <- ->. exists s1, s2. auto.
  - intros (k' & -> & s1 & s2 & -> & H1 & H2). simpl.
    exists (String a s1), s2. auto.
Qed.

Lemma bounds_ok_spec lo hi : bounds_ok lo hi = true <-> in_bounds lo lo hi.
Proof.
  unfold bounds_ok, in_bounds. destruct hi as [h|].
  - rewrite Nat.leb_le. intuition lia.
  - intuition lia.
Qed.

Lemma nullable_spec r : nullable r = true <-> lang r "".
Proof.
  induction r as [| |items|r1 IH1 r2 IH2|r1 IH1 r2 IH2|r1 IH lo hi]; simpl.
  - split; [discriminate | tauto].
  - split; auto.
  - split; [discriminate|]. intros (c & E & _). discriminate.
  - rewrite andb_true_iff, IH1, IH2. split.
    + intros [H1 H2]. exists "", "". auto.
    + intros (s1 & s2 & E & H1 & H2). symmetry in E.
      apply append_eq_empty in E. destruct E as [-> ->]. auto.
  - rewrite orb_true_iff, IH1, IH2. tauto.
  - rewrite andb_true_iff, orb_true_iff, Nat.eqb_eq, bounds_ok_spec, IH. split.
    + intros [Hb [->|H]].
      * exists 0. split; [exact Hb | reflexivity].
      * exists lo. split; [exact Hb | apply power_empty; exact H].
    + intros (k & Hb & Hp). split.
      * unfold in_bounds in *. destruct hi; lia.
      * destruct lo as [|lo]; [left; reflexivity | right].
        destruct k as [|k]; [unfold in_bounds in Hb; lia|].
        simpl in Hp. destruct Hp as (s1 & s2 & E & H1 & _). symmetry in E.
        apply append_eq_empty in E. destruct E as [-> _]. exact H1.
Qed.

Lemma lang_mkSeq r1 r2 s : lang (mkSeq r1 r2) s <-> lang (Seq r1 r2) s.
Proof.
  destruct r1; simpl; try tauto.
  - split; [tauto|]. intros (s1 & s2 & _ & [] & _).
  - split.
    + intros H. exists "", s. auto.
    + intros (s1 & s2 & -> & -> & H). exact H.
Qed.

Lemma lang_mkAlt r1 r2 s : lang (mkAlt r1 r2) s <-> lang (Alt r1 r2) s.
Proof. destruct r1, r2; simpl; tauto. Qed.

Lemma in_bounds_pred k lo hi :
  hi <> Some 0 ->
  (in_bounds (S k) lo hi <-> in_bounds k (pred lo) (option_map pred hi)).
Proof.
  unfold in_bounds. destruct hi as [[|h]|]; simpl; intros H; [congruence| |]; lia.
Qed.

(** The derivative by [a] matches [s] exactly when the pattern matches
    [a] followed by [s]. *)
Lemma lang_der r a s : lang (der a r) s <-> lang r (String a s).
Proof.
  revert s.
  induction r as [| |items|r1 IH1 r2 IH2|r1 IH1 r2 IH2|r1 IH lo hi]; intros s.
  - simpl. tauto.
  - simpl. split; [tauto | discriminate].
  - simpl. destruct (class_mem items a) eqn:E; simpl.
    + split.
      * intros ->. exists a. auto.
      * intros (c & Hc & _). congruence.
    + split; [tauto|]. intros (c & Hc & Hm). congruence.
  - assert (Hseq : lang (Seq (der a r1) r2) s <->
                   exists s1 s2, s = s1 ++ s2 /\ lang r1 (String a s1) /\ lang r2 s2).
    { simpl. split; intros (s1 & s2 & E & H1 & H2); exists s1, s2; rewrite IH1 in *; auto. }
    cbn [der]. destruct (nullable r1) eqn:N.
    + rewrite lang_mkAlt. cbn [lang]. rewrite lang_mkSeq, Hseq, IH2.
      apply nullable_spec in N. split.
      * intros [(s1 & s2 & -> & H1 & H2) | H].
        -- exists (String a s1), s2. auto.
        -- exists "", (String a s). auto.
      * intros (s1 & s2 & E & H1 & H2). destruct s1 as [|c s1]; simpl in E.
        -- subst s2. right. exact H2.
        -- injection E as <- ->. left. exists s1, s2. auto.
    + rewrite lang_mkSeq, Hseq. cbn [lang]. split.
      * intros (s1 & s2 & -> & H1 & H2). exists (String a s1), s2. auto.
      * intros (s1 & s2 & E & H1 & H2). destruct s1 as [|c s1]; simpl in E.
        -- apply nullable_spec in H1. congruence.
        -- injection E as <- ->. exists s1, s2. auto.
  - cbn [der]. rewrite lang_mkAlt. simpl. rewrite IH1, IH2. tauto.
  - assert (Hrep : hi <> Some 0 ->
              (lang (mkSeq (der a r1) (Rep r1 (pred lo) (option_map pred hi))) s <->
               lang (Rep r1 lo hi) (String a s))).
    { intros Hhi. rewrite lang_mkSeq. cbn [lang]. split.
      - intros (s1 & s2 & -> & H1 & k & Hb & Hp).
        exists (S k). split; [apply in_bounds_pred; assumption|].
        apply power_cons. exists k. split; [reflexivity|].
        exists s1, s2. rewrite <- IH. auto.
      - intros (k & Hb & Hp). apply power_cons in Hp.
        destruct Hp as (k' & -> & s1 & s2 & -> & H1 & H2).
        exists s1, s2. rewrite IH. repeat split; try assumption.
        exists k'. split; [apply in_bounds_pred; assumption | assumption]. }
    cbn [der]. destruct hi as [[|h]|].
    + cbn [lang]. split; [tauto|]. intros (k & [_ Hk] & Hp).
      assert (k = 0) by lia. subst k. discriminate Hp.
    + apply Hrep. discriminate.
    + apply Hrep. discriminate.
Qed.

(** [test] decides the language of the pattern. *)
Lemma test_spec r s : test r s = true <-> lang r s.
Proof.
  unfold test. revert r. induction s as [|a s IH]; intros r; simpl.
  - apply nullable_spec.
  - rewrite IH. apply lang_der.
Qed.

(** *** Classes and counted repetitions of a class *)

Lemma power_class items k s :
  power (lang (Class items)) k s <->
  String.length s = k /\ all (class_mem items) s = true.
Proof.
  revert s. induction k as [|k IH]; intros s; simpl.
  - split.
    + intros ->. auto.
    + intros [H _]. destruct s; [reflexivity | discriminate].
  - split.
    + intros (s1 & s2 & -> & (c & -> & Hc) & Hp).
      apply IH in Hp. destruct Hp as [Hl Ha]. simpl.
      rewrite Hc, Ha, Hl. auto.
    + intros [Hl Ha]. destruct s as [|c s]; [discriminate|].
      simpl in *. apply andb_true_iff in Ha. destruct Ha as [Hc Ha].
      exists (String c ""), s. repeat split.
      * exists c. auto.
      * apply IH. split; [lia | assumption].
Qed.

Lemma lang_rep_class items lo hi s :
  lang (Rep (Class items) lo hi) s <->
  in_bounds (String.length s) lo hi /\ all (class_mem items) s = true.
Proof.
  cbn [lang]. split.
  - intros (k & Hb & Hp). apply power_class in Hp. destruct Hp as [<- Ha]. auto.
  - intros [Hb Ha]. exists (String.length s). split; [assumption|].
    apply power_class. auto.
Qed.

Lemma lang_class items s :
  lang (Class items) s <-> exists c, s = String c "" /\ class_mem items c = true.
Proof. reflexivity. Qed.

Lemma lang_seq_class items r s :
  lang (Seq (Class items) r) s <->
  exists c rest, s = String c rest /\ class_mem items c = true /\ lang r rest.
Proof.
  cbn [lang]. split.
  - intros (s1 & s2 & -> & (c & -> & Hc) & H). exists c, s2. auto.
  - intros (c & rest & -> & Hc & H). exists (String c ""), rest.
    repeat split; [exists c; auto | assumption].
Qed.

Lemma class_mem_alnum c : class_mem Main.alnum c = is_alnum c.
Proof.
  unfold class_mem, Main.alnum, is_alnum, is_alpha, is_digit. simpl.
  rewrite orb_false_r, orb_assoc. reflexivity.
Qed.

Lemma class_mem_alnum_hyphen c : class_mem Main.alnum_hyphen c = Spec.is_alnum_or_hyphen c.
Proof.
  unfold class_mem, Main.alnum_hyphen, Main.alnum, Spec.is_alnum_or_hyphen,
    is_alnum, is_alpha, is_digit, hyphen. simpl.
  rewrite orb_false_r, !orb_assoc. reflexivity.
Qed.

Lemma class_mem_alpha c : class_mem Main.alpha c = is_alpha c.
Proof.
  unfold class_mem, Main.alpha, is_alpha. simpl.
  rewrite orb_false_r. reflexivity.
Qed.

Lemma class_mem_digit c : class_mem [Range "0" "9"] c = is_digit c.
Proof. unfold class_mem, is_digit. simpl. apply orb_false_r. Qed.

Lemma class_mem_single d c : class_mem [Single d] c = Ascii.eqb c d.
Proof. unfold class_mem. simpl. apply orb_false_r. Qed.

Lemma all_ext (p q : ascii -> bool) s : (forall c, p c = q c) -> all p s = all q s.
Proof. intros H. induction s as [|c s IH]; simpl; [reflexivity|]. rewrite H, IH. reflexivity. Qed.

End RegExpFacts.

(** ** The two patterns of the source, read as grammars *)

Section PatternFacts.
Import RegExp JsString.

Lemma lang_exactly_digits n s :
  lang (exactly n digit_class) s <-> String.length s = n /\ all is_digit s = true.
Proof.
  unfold exactly, digit_class. rewrite lang_rep_class.
  rewrite (all_ext _ is_digit s class_mem_digit).
  unfold in_bounds. intuition lia.
Qed.

Lemma lang_literal c s : lang (literal c) s <-> s = String c "".
Proof.
  unfold literal. rewrite lang_class. split.
  - intros (d & -> & H). rewrite class_mem_single in H.
    apply Ascii.eqb_eq in H. congruence.
  - intros ->. exists c. rewrite class_mem_single, Ascii.eqb_refl. auto.
Qed.

(** The date pattern of the source is the pattern of the specification. *)
Lemma dateRegex_pattern s : test Main.dateRegex s = Spec.date_pattern s.
Proof.
  apply eq_true_iff_eq. rewrite test_spec. unfold Main.dateRegex. split.
  - intros (y & r1 & -> & Hy & h1 & r2 & -> & Hh1 & m & r3 & -> & Hm
              & h2 & d & -> & Hh2 & Hd).
    apply lang_exactly_digits in Hy, Hm, Hd. apply lang_literal in Hh1, Hh2.
    subst h1 h2. destruct Hy as [Ly Ay], Hm as [Lm Am], Hd as [Ld Ad].
    destruct y as [|y1 [|y2 [|y3 [|y4 [|? ?]]]]]; try discriminate Ly.
    destruct m as [|m1 [|m2 [|? ?]]]; try discriminate Lm.
    destruct d as [|d1 [|d2 [|? ?]]]; try discriminate Ld.
    simpl in *.
    repeat match goal with
           | H : _ && _ = true |- _ => apply andb_true_iff in H; destruct H
           end.
    repeat match goal with H : is_digit _ = true |- _ => rewrite H; clear H end.
    reflexivity.
  - intros H.
    destruct s as [|y1 [|y2 [|y3 [|y4 [|h1 [|m1 [|m2 [|h2 [|d1 [|d2 [|? ?]]]]]]]]]]];
      try discriminate H.
    simpl in H.
    repeat match goal with
           | H : _ && _ = true |- _ => apply andb_true_iff in H; destruct H
           end.
    repeat match goal with
           | H : Ascii.eqb _ _ = true |- _ => apply Ascii.eqb_eq in H; subst
           end.
    exists (String y1 (String y2 (String y3 (String y4 "")))),
      (String hyphen (String m1 (String m2 (String hyphen (String d1 (String d2 "")))))).
    split; [reflexivity|]. split.
    { apply lang_exactly_digits. simpl.
      repeat match goal with H : is_digit _ = true |- _ => rewrite H; clear H end. auto. }
    exists (String hyphen ""), (String m1 (String m2 (String hyphen (String d1 (String d2 ""))))).
    split; [reflexivity|]. split; [apply lang_literal; reflexivity|].
    exists (String m1 (String m2 "")), (String hyphen (String d1 (String d2 ""))).
    split; [reflexivity|]. split.
    { apply lang_exactly_digits. simpl.
      repeat match goal with H : is_digit _ = true |- _ => rewrite H; clear H end. auto. }
    exists (String hyphen ""), (String d1 (String d2 "")).
    split; [reflexivity|]. split; [apply lang_literal; reflexivity|].
    apply lang_exactly_digits. simpl.
    repeat match goal with H : is_digit _ = true |- _ => rewrite H; clear H end. auto.
Qed.

(** *** First and last characters *)

Lemma last_char_snoc s c : Spec.last_char (s ++ String c "") = Some c.
Proof.
  induction s as [|d s IH]; simpl; [reflexivity|].
  rewrite IH. destruct s; reflexivity.
Qed.

Lemma drop_last_snoc s c : Spec.drop_last (s ++ String c "") = s.
Proof.
  induction s as [|d s IH]; simpl; [reflexivity|].
  rewrite IH. destruct s; reflexivity.
Qed.

Lemma snoc_decompose t :
  t <> "" -> exists c, Spec.last_char t = Some c /\ t = Spec.drop_last t ++ String c "".
Proof.
  induction t as [|d t IH]; [congruence|]. intros _.
  destruct t as [|e t].
  - exists d. auto.
  - destruct IH as (c & H1 & H2); [discriminate|].
    exists c. split; [exact H1|].
    change (Spec.drop_last (String d (String e t)))
      with (String d (Spec.drop_last (String e t))).
    cbn [append]. f_equal. exact H2.
Qed.

(** *** Dotted segments *)

Lemma concat_dotted label segs :
  String.concat (String dot "") (label :: segs) = label ++ Spec.dotted segs.
Proof.
  revert label. induction segs as [|g segs IH]; intros label.
  - simpl. symmetry. apply append_empty_r.
  - change (String.concat (String dot "") (label :: g :: segs))
      with (label ++ String dot "" ++ String.concat (String dot "") (g :: segs)).
    rewrite IH. reflexivity.
Qed.

Lemma split_dotted label segs :
  count dot label = 0 ->
  forallb (fun g => count dot g =? 0)%nat segs = true ->
  split dot (label ++ Spec.dotted segs) = label :: segs.
Proof.
  revert label. induction segs as [|g segs IH]; intros label Hl Hs; simpl.
  - rewrite append_empty_r. apply split_no_sep. exact Hl.
  - simpl in Hs. apply andb_true_iff in Hs. destruct Hs as [Hg Hs].
    apply Nat.eqb_eq in Hg.
    rewrite (split_app _ _ _ Hl), (IH _ Hg Hs). reflexivity.
Qed.

Lemma alpha_not_dot c : is_alpha c = true -> negb (Ascii.eqb c dot) = true.
Proof.
  intros H. destruct (Ascii.eqb c dot) eqn:E; [|reflexivity].
  apply Ascii.eqb_eq in E. subst c. discriminate H.
Qed.

Lemma alnum_or_hyphen_not_dot c :
  Spec.is_alnum_or_hyphen c = true -> negb (Ascii.eqb c dot) = true.
Proof.
  intros H. destruct (Ascii.eqb c dot) eqn:E; [|reflexivity].
  apply Ascii.eqb_eq in E. subst c. discriminate H.
Qed.

Lemma alnum_is_alnum_or_hyphen c : is_alnum c = true -> Spec.is_alnum_or_hyphen c = true.
Proof. unfold Spec.is_alnum_or_hyphen. intros ->. reflexivity. Qed.

Lemma segment_no_dot g : Spec.segment_ok g = true -> count dot g = 0.
Proof.
  unfold Spec.segment_ok. intros H. apply andb_true_iff in H. destruct H as [_ H].
  apply count_all_neq, (all_impl is_alpha); [apply alpha_not_dot | exact H].
Qed.

Lemma segments_no_dot segs :
  forallb Spec.segment_ok segs = true ->
  forallb (fun g => count dot g =? 0)%nat segs = true.
Proof.
  induction segs as [|g segs IH]; simpl; [reflexivity|].
  intros H. apply andb_true_iff in H. destruct H as [H1 H2].
  rewrite (segment_no_dot _ H1), (IH H2). reflexivity.
Qed.

Lemma lang_segment s :
  lang Main.segment s <-> exists g, s = String dot g /\ Spec.segment_ok g = true.
Proof.
  unfold Main.segment. cbn [lang]. fold (lang (literal ".")). split.
  - intros (s1 & s2 & -> & H1 & k & [Hk _] & Hp).
    apply lang_literal in H1. subst s1.
    apply power_class in Hp. destruct Hp as [Hl Ha].
    exists s2. split; [reflexivity|]. unfold Spec.segment_ok.
    rewrite (all_ext _ is_alpha s2 class_mem_alpha) in Ha. rewrite Ha, andb_true_r.
    apply Nat.leb_le. lia.
  - intros (g & -> & H). unfold Spec.segment_ok in H.
    apply andb_true_iff in H. destruct H as [Hl Ha]. apply Nat.leb_le in Hl.
    exists (String dot ""), g. split; [reflexivity|].
    split; [apply lang_literal; reflexivity|].
    exists (String.length g). split; [split; [exact Hl | exact I]|].
    apply power_class. rewrite (all_ext _ is_alpha g class_mem_alpha). auto.
Qed.

Lemma power_segments k s :
  power (lang Main.segment) k s <->
  exists segs, List.length segs = k /\ s = Spec.dotted segs
               /\ forallb Spec.segment_ok segs = true.
Proof.
  revert s. induction k as [|k IH]; intros s; simpl.
  - split.
    + intros ->. exists []. auto.
    + intros (segs & Hl & -> & _). destruct segs; [reflexivity | discriminate].
  - split.
    + intros (s1 & s2 & -> & H1 & H2).
      apply lang_segment in H1. destruct H1 as (g & -> & Hg).
      apply IH in H2. destruct H2 as (segs & Hl & -> & Hs).
      exists (g :: segs). simpl. rewrite Hl, Hg, Hs. auto.
    + intros (segs & Hl & -> & Hs). destruct segs as [|g segs]; [discriminate|].
      simpl in *. apply andb_true_iff in Hs. destruct Hs as [Hg Hs].
      exists (String dot g), (Spec.dotted segs). split; [reflexivity|]. split.
      * apply lang_segment. exists g. auto.
      * apply IH. exists segs. repeat split; [lia | assumption].
Qed.

End PatternFacts.

Section DomainFacts.
Import RegExp JsString.

(** The language of the domain pattern, spelled out. *)
Lemma lang_domainRegex d :
  lang Main.domainRegex d <->
  exists c1 mid c2 segs,
    d = String c1 (mid ++ String c2 (Spec.dotted segs))
    /\ is_alnum c1 = true
    /\ 1 <= String.length mid <= 61
    /\ all Spec.is_alnum_or_hyphen mid = true
    /\ is_alnum c2 = true
    /\ 1 <= List.length segs
    /\ forallb Spec.segment_ok segs = true.
Proof.
  unfold Main.domainRegex. rewrite lang_seq_class. split.
  - intros (c1 & rest & -> & H1 & H).
    cbn [lang] in H. destruct H as (mid & r2 & -> & Hmid & H).
    fold (lang (Seq (Class Main.alnum) (plus Main.segment))) in H.
    fold (lang (Rep (Class Main.alnum_hyphen) 1 (Some 61))) in Hmid.
    apply lang_rep_class in Hmid. destruct Hmid as [[Hlo Hhi] Ha].
    apply lang_seq_class in H. destruct H as (c2 & tl & -> & H2 & k & [Hk _] & Hp).
    apply power_segments in Hp. destruct Hp as (segs & Hl & -> & Hs).
    exists c1, mid, c2, segs.
    rewrite class_mem_alnum in H1, H2.
    rewrite (all_ext _ Spec.is_alnum_or_hyphen mid class_mem_alnum_hyphen) in Ha.
    repeat split; try assumption; lia.
  - intros (c1 & mid & c2 & segs & -> & H1 & [Hlo Hhi] & Ha & H2 & Hl & Hs).
    exists c1, (mid ++ String c2 (Spec.dotted segs)).
    split; [reflexivity|]. split; [rewrite class_mem_alnum; exact H1|].
    exists mid, (String c2 (Spec.dotted segs)). split; [reflexivity|]. split.
    { apply lang_rep_class. split; [split; assumption|].
      rewrite (all_ext _ Spec.is_alnum_or_hyphen mid class_mem_alnum_hyphen). exact Ha. }
    apply lang_seq_class. exists c2, (Spec.dotted segs).
    split; [reflexivity|]. split; [rewrite class_mem_alnum; exact H2|].
    exists (List.length segs). split; [split; [exact Hl | exact I]|].
    apply power_segments. exists segs. auto.
Qed.

Lemma label_no_dot c1 mid c2 :
  is_alnum c1 = true -> all Spec.is_alnum_or_hyphen mid = true -> is_alnum c2 = true ->
  count dot (String c1 (mid ++ String c2 "")) = 0.
Proof.
  intros H1 Ha H2. apply count_all_neq.
  apply (all_impl Spec.is_alnum_or_hyphen); [apply alnum_or_hyphen_not_dot|].
  simpl. rewrite all_append. simpl.
  rewrite (alnum_is_alnum_or_hyphen _ H1), Ha, (alnum_is_alnum_or_hyphen _ H2).
  reflexivity.
Qed.

Lemma label_ok_snoc c1 mid c2 :
  Spec.label_ok (String c1 (mid ++ String c2 "")) =
  is_alnum c1 && is_alnum c2 && all Spec.is_alnum_or_hyphen mid
  && (1 <=? String.length mid)%nat && (String.length mid <=? 61)%nat.
Proof.
  unfold Spec.label_ok.
  assert (Hlast : Spec.last_char (String c1 (mid ++ String c2 "")) = Some c2).
  { change (String c1 (mid ++ String c2 "")) with ((String c1 mid) ++ String c2 "").
    apply last_char_snoc. }
  rewrite Hlast. cbn [Spec.first_char Spec.holds Spec.middle].
  rewrite drop_last_snoc. cbn [String.length].
  rewrite length_append. cbn [String.length].
  replace (String.length mid + 1) with (S (String.length mid)) by lia.
  reflexivity.
Qed.

(** A label the specification accepts has a first character, a middle
    and a last character. *)
Lemma label_ok_shape l :
  Spec.label_ok l = true ->
  exists c1 mid c2, l = String c1 (mid ++ String c2 "").
Proof.
  unfold Spec.label_ok. intros H.
  repeat (apply andb_true_iff in H; destruct H as [H ?]).
  destruct l as [|c1 t]; [discriminate H|].
  destruct t as [|e t]; [discriminate|].
  destruct (snoc_decompose (String e t)) as (c2 & _ & E); [discriminate|].
  exists c1, (Spec.drop_last (String e t)), c2. rewrite <- E. reflexivity.
Qed.

(** The domain pattern of the source accepts exactly the grammar of the
    specification. *)
Lemma domainRegex_grammar d : test Main.domainRegex d = Spec.domain_grammar d.
Proof.
  apply eq_true_iff_eq. rewrite test_spec, lang_domainRegex.
  unfold Spec.domain_grammar. split.
  - intros (c1 & mid & c2 & segs & -> & H1 & [Hlo Hhi] & Ha & H2 & Hl & Hs).
    change (String c1 (mid ++ String c2 (Spec.dotted segs)))
      with (String c1 mid ++ String c2 ("" ++ Spec.dotted segs)).
    change (String c2 ("" ++ Spec.dotted segs))
      with (String c2 "" ++ Spec.dotted segs).
    rewrite <- append_assoc.
    rewrite split_dotted;
      [| apply label_no_dot; assumption | apply segments_no_dot; exact Hs].
    destruct segs as [|g segs]; [simpl in Hl; lia|].
    change (String c1 mid ++ String c2 "") with (String c1 (mid ++ String c2 "")).
    rewrite label_ok_snoc, H1, H2, Ha, Hs.
    apply Nat.leb_le in Hlo, Hhi. rewrite Hlo, Hhi. reflexivity.
  - intros H. pose proof (concat_split dot d) as Hd.
    destruct (split dot d) as [|label [|g segs]]; try discriminate H.
    apply andb_true_iff in H. destruct H as [Hlab Hs].
    rewrite concat_dotted in Hd.
    destruct (label_ok_shape _ Hlab) as (c1 & mid & c2 & ->).
    rewrite label_ok_snoc in Hlab.
    repeat (apply andb_true_iff in Hlab; destruct Hlab as [Hlab ?]).
    exists c1, mid, c2, (g :: segs). repeat split; try assumption.
    + rewrite <- Hd. cbn [append]. rewrite append_assoc. reflexivity.
    + apply Nat.leb_le. assumption.
    + apply Nat.leb_le. assumption.
    + simpl. lia.
Qed.

Lemma isValidDomain_grammar d : Main.isValidDomain d = Spec.domain_grammar d.
Proof. apply domainRegex_grammar. Qed.

End DomainFacts.

(** ** Runs of the functions of src/main.js *)

Section Runs.
Import Node Main JsString.

Lemma trace_logs es w : trace (logs es w) = (trace w ++ es)%list.
Proof.
  revert w. induction es as [|e es IH]; intros w; simpl.
  - symmetry. apply app_nil_r.
  - rewrite IH. simpl. rewrite <- app_assoc. reflexivity.
Qed.

Lemma entropy_logs es w : entropy (logs es w) = entropy w.
Proof. revert w. induction es as [|e es IH]; intros w; simpl; [reflexivity|]. rewrite IH. reflexivity. Qed.

(** A run that only logs [es]: these are its events. *)
Lemma events_intro {A} (m : M A) w v w' es :
  m (fresh w) = (v, w') -> trace w' = es -> events m w = es.
Proof. unfold events, after. intros -> H. exact H. Qed.

(** [calculateChecksum] creates one MD5 hash object and returns the
    checksum of the specification. *)
Lemma calculateChecksum_run data w :
  calculateChecksum data w = (Normal (Spec.checksum data), log (CreateHash md5) w).
Proof. reflexivity. Qed.

Lemma addChecksum_run licenseKey w :
  addChecksum licenseKey w =
  (Normal (licenseKey ++ "." ++ Spec.checksum licenseKey), log (CreateHash md5) w).
Proof. reflexivity. Qed.

Lemma isValidExpirationDate_run s w :
  isValidExpirationDate s w =
  (Normal (negb (isNaN (date_parse w s)) && gt (date_parse w s) (Some (now w))
           && RegExp.test dateRegex s),
   log ReadClock w).
Proof. reflexivity. Qed.

Lemma generateLicenseKey_run domain expire hardwareId w :
  generateLicenseKey domain expire hardwareId w =
  if (16 <=? List.length (entropy w))%nat
  then
    let salt := Hex.toString (firstn 16 (entropy w)) in
    (Normal (salt ++ "." ++ Spec.sha256_hex
               (salt ++ "-" ++ domain ++ "-" ++ expire ++ "-" ++ hardwareId)),
     mkWorld (now w) (date_parse w) (machine_id w) (skipn 16 (entropy w))
             (trace w ++ [CreateHash sha256] ++ [RandomBytes 16])%list)
  else (Throw "Failed to generate license key",
        logs [CreateHash sha256; RandomBytes 16] w).
Proof.
  unfold generateLicenseKey, try_catch, bind, createHash, randomBytes, throw, ret.
  cbn [entropy log now date_parse machine_id trace].
  destruct (16 <=? List.length (entropy w))%nat; [|reflexivity].
  cbv zeta. rewrite <- app_assoc. reflexivity.
Qed.

(** The three ways a run of [verify] can go. *)
Lemma verify_run key w :
  verify key w =
  match split dot key with
  | [salt; hash; checksum] =>
      if String.eqb checksum (Spec.checksum (salt ++ "." ++ hash))
      then (Normal tt,
            logs [CreateHash md5; ConsoleLog "License key is valid";
                  ConsoleLog ("Salt: " ++ salt); ConsoleLog ("Hash: " ++ hash);
                  ConsoleLog ("Checksum: " ++ checksum)] w)
      else (Normal tt,
            logs [CreateHash md5;
                  ConsoleError "Error: Invalid license key: checksum mismatch";
                  ProcessExit 1] w)
  | _ => (Normal tt,
          logs [ConsoleError "Error: Invalid license key format"; ProcessExit 1] w)
  end.
Proof.
  unfold verify. change (split "." key) with (split dot key).
  destruct (split dot key) as [|a [|b [|c [|d l]]]]; try reflexivity.
  unfold try_catch, bind. cbn [List.length Nat.eqb negb nth].
  rewrite calculateChecksum_run.
  destruct (String.eqb c (Spec.checksum (a ++ "." ++ b))); reflexivity.
Qed.

Lemma generate_run domain expire w :
  generate domain expire w =
  if negb (isValidDomain domain)
  then (Normal tt, logs [ConsoleError "Error: Invalid domain format"; ProcessExit 1] w)
  else
    match value (isValidExpirationDate expire) w with
    | Normal true =>
        match machine_id w with
        | Normal hardwareId =>
            if (16 <=? List.length (entropy w))%nat
            then
              let salt := Hex.toString (firstn 16 (entropy w)) in
              let core := salt ++ "." ++ Spec.sha256_hex
                   (salt ++ "-" ++ domain ++ "-" ++ expire ++ "-" ++ hardwareId) in
              (Normal tt,
               mkWorld (now w) (date_parse w) (machine_id w) (skipn 16 (entropy w))
                 (trace w ++ [ReadClock; MachineIdSync; CreateHash sha256; RandomBytes 16;
                              CreateHash md5;
                              ConsoleLog ("Generated License Key: "
                                            ++ core ++ "." ++ Spec.checksum core)])%list)
            else (Normal tt,
                  logs [ReadClock; MachineIdSync; CreateHash sha256; RandomBytes 16;
                        ConsoleError "Error: Failed to generate license key";
                        ProcessExit 1] w)
        | Throw message =>
            (Normal tt,
             logs [ReadClock; MachineIdSync; ConsoleError ("Error: " ++ message);
                   ProcessExit 1] w)
        end
    | _ =>
        (Normal tt,
         logs [ReadClock;
               ConsoleError "Error: Invalid expiration date. Use format YYYY-MM-DD and date must be in the future";
               ProcessExit 1] w)
    end.
Proof.
  unfold generate, try_catch.
  destruct (isValidDomain domain); cbn [negb]; [|reflexivity].
  unfold bind at 1. unfold value. rewrite isValidExpirationDate_run. cbn [fst].
  destruct (negb (isNaN (date_parse w expire)) && gt (date_parse w expire) (Some (now w))
            && RegExp.test dateRegex expire); cbn [negb]; [|reflexivity].
  unfold bind at 1. unfold machineIdSync at 1.
  cbn [entropy log now date_parse machine_id trace].
  destruct (machine_id w) as [hardwareId|message] eqn:Hid; [|reflexivity].
  unfold bind at 1. rewrite generateLicenseKey_run.
  cbn [entropy log now date_parse machine_id trace].
  destruct (16 <=? List.length (entropy w))%nat.
  - cbv zeta. unfold bind at 1. rewrite addChecksum_run.
    unfold console_log2, emit, log. cbn [entropy now date_parse machine_id trace].
    rewrite Hid. repeat rewrite <- app_assoc. reflexivity.
  - unfold logs, report, bind, console_error2, process_exit, emit, log.
    cbn [fold_left entropy now date_parse machine_id trace].
    rewrite Hid. reflexivity.
Qed.

End Runs.

(** ** Verification of a key *)

Section VerifyFacts.
Import Node Main JsString.

(** [verify] catches what it throws: it always completes normally. *)
Lemma verify_value key w : value (verify key) w = Normal tt.
Proof.
  unfold value. rewrite verify_run.
  destruct (split dot key) as [|a [|b [|c [|d l]]]]; try reflexivity.
  destruct (String.eqb c (Spec.checksum (a ++ "." ++ b))); reflexivity.
Qed.

Lemma verify_events key w :
  events (verify key) w =
  match split dot key with
  | [salt; hash; checksum] =>
      if String.eqb checksum (Spec.checksum (salt ++ "." ++ hash))
      then [CreateHash md5; ConsoleLog "License key is valid";
            ConsoleLog ("Salt: " ++ salt); ConsoleLog ("Hash: " ++ hash);
            ConsoleLog ("Checksum: " ++ checksum)]
      else [CreateHash md5;
            ConsoleError "Error: Invalid license key: checksum mismatch";
            ProcessExit 1]
  | _ => [ConsoleError "Error: Invalid license key format"; ProcessExit 1]
  end.
Proof.
  unfold events, after. rewrite verify_run.
  destruct (split dot key) as [|a [|b [|c [|d l]]]]; try reflexivity.
  destruct (String.eqb c (Spec.checksum (a ++ "." ++ b))); reflexivity.
Qed.

Lemma verify_events_malformed key w :
  List.length (split dot key) <> 3 ->
  events (verify key) w =
  [ConsoleError "Error: Invalid license key format"; ProcessExit 1].
Proof.
  intros H. rewrite verify_events.
  destruct (split dot key) as [|a [|b [|c [|d l]]]]; try reflexivity.
  simpl in H. congruence.
Qed.

Lemma verify_events_mismatch key salt hash checksum w :
  split dot key = [salt; hash; checksum] ->
  checksum <> Spec.checksum (salt ++ "." ++ hash) ->
  events (verify key) w =
  [CreateHash md5; ConsoleError "Error: Invalid license key: checksum mismatch";
   ProcessExit 1].
Proof.
  intros Hs Hc. rewrite verify_events, Hs.
  apply String.eqb_neq in Hc. rewrite Hc. reflexivity.
Qed.

Lemma verify_events_valid key salt hash checksum w :
  split dot key = [salt; hash; checksum] ->
  checksum = Spec.checksum (salt ++ "." ++ hash) ->
  events (verify key) w =
  [CreateHash md5; ConsoleLog "License key is valid";
   ConsoleLog ("Salt: " ++ salt); ConsoleLog ("Hash: " ++ hash);
   ConsoleLog ("Checksum: " ++ checksum)].
Proof.
  intros Hs Hc. rewrite verify_events, Hs.
  apply String.eqb_eq in Hc. rewrite Hc. reflexivity.
Qed.

(** Any two dot-free strings, followed by the checksum of their
    joining, split into themselves and the checksum. *)
Lemma split_with_checksum salt hash :
  count dot salt = 0 -> count dot hash = 0 ->
  split dot (salt ++ "." ++ hash ++ "." ++ Spec.checksum (salt ++ "." ++ hash))
  = [salt; hash; Spec.checksum (salt ++ "." ++ hash)].
Proof.
  intros Ha Hb. apply (split_three dot); try assumption. apply checksum_no_dot.
Qed.

End VerifyFacts.

(** ** Generation of a key *)

Section GenerateFacts.
Import Node Main JsString.

Lemma isValidExpirationDate_value s w :
  value (isValidExpirationDate s) w =
  Normal (negb (isNaN (date_parse w s)) && gt (date_parse w s) (Some (now w))
          && RegExp.test dateRegex s).
Proof. reflexivity. Qed.

(** [generate] catches what it throws: it always completes normally. *)
Lemma generate_value domain expire w : value (generate domain expire) w = Normal tt.
Proof.
  unfold value at 1. rewrite generate_run.
  destruct (negb (isValidDomain domain)); [reflexivity|].
  destruct (value (isValidExpirationDate expire) w) as [[|]|]; try reflexivity.
  destruct (machine_id w); [|reflexivity].
  destruct (16 <=? List.length (entropy w))%nat; reflexivity.
Qed.

(** The events of a run of [generate], by the first step that fails. *)
Lemma generate_events domain expire w :
  events (generate domain expire) w =
  if negb (isValidDomain domain)
  then [ConsoleError "Error: Invalid domain format"; ProcessExit 1]
  else
    match value (isValidExpirationDate expire) w with
    | Normal true =>
        match machine_id w with
        | Normal hardwareId =>
            if (16 <=? List.length (entropy w))%nat
            then
              let salt := Hex.toString (firstn 16 (entropy w)) in
              let core := salt ++ "." ++ Spec.sha256_hex
                   (salt ++ "-" ++ domain ++ "-" ++ expire ++ "-" ++ hardwareId) in
              [ReadClock; MachineIdSync; CreateHash sha256; RandomBytes 16;
               CreateHash md5;
               ConsoleLog ("Generated License Key: " ++ core ++ "." ++ Spec.checksum core)]
            else [ReadClock; MachineIdSync; CreateHash sha256; RandomBytes 16;
                  ConsoleError "Error: Failed to generate license key";
                  ProcessExit 1]
        | Throw message =>
            [ReadClock; MachineIdSync; ConsoleError ("Error: " ++ message);
             ProcessExit 1]
        end
    | _ =>
        [ReadClock;
         ConsoleError "Error: Invalid expiration date. Use format YYYY-MM-DD and date must be in the future";
         ProcessExit 1]
    end.
Proof.
  unfold events, after. rewrite generate_run.
  change (value (isValidExpirationDate expire) (fresh w))
    with (value (isValidExpirationDate expire) w).
  cbn [fresh machine_id entropy now date_parse trace].
  destruct (negb (isValidDomain domain)); [reflexivity|].
  destruct (value (isValidExpirationDate expire) w) as [[|]|]; try reflexivity.
  destruct (machine_id w); [|reflexivity].
  destruct (16 <=? List.length (entropy w))%nat; reflexivity.
Qed.

(** The random source after a run of [generate]: 16 bytes shorter when
    the run reached [randomBytes] and the source could deliver, and
    untouched otherwise. *)
Lemma generate_entropy domain expire w :
  entropy (after (generate domain expire) w) =
  if negb (isValidDomain domain) then entropy w
  else match value (isValidExpirationDate expire) w, machine_id w with
       | Normal true, Normal _ =>
           if (16 <=? List.length (entropy w))%nat then skipn 16 (entropy w)
           else entropy w
       | _, _ => entropy w
       end.
Proof.
  unfold after. rewrite generate_run.
  destruct (negb (isValidDomain domain)); [reflexivity|].
  destruct (value (isValidExpirationDate expire) w) as [[|]|]; try reflexivity.
  destruct (machine_id w); [|reflexivity].
  destruct (16 <=? List.length (entropy w))%nat; reflexivity.
Qed.

(** A salt of 16 bytes, a SHA-256 digest and their checksum make a key
    of the specified format. *)
Lemma generated_key_shape saltBytes preimage :
  List.length saltBytes = 16 ->
  let salt := Hex.toString saltBytes in
  let digest := Spec.sha256_hex preimage in
  let sum := Spec.checksum (salt ++ "." ++ digest) in
  Spec.lower_hex 32 salt = true
  /\ Spec.lower_hex 64 digest = true
  /\ Spec.lower_hex 8 sum = true
  /\ split dot (salt ++ "." ++ digest ++ "." ++ sum) = [salt; digest; sum]
  /\ String.length (salt ++ "." ++ digest ++ "." ++ sum) = 106
  /\ Spec.key_format (salt ++ "." ++ digest ++ "." ++ sum) = true.
Proof.
  intros Hlen salt digest sum.
  assert (Hsalt : Spec.lower_hex 32 salt = true) by (apply (lower_hex_toString 16); exact Hlen).
  assert (Hdig : Spec.lower_hex 64 digest = true) by apply sha256_hex_format.
  assert (Hsum : Spec.lower_hex 8 sum = true) by apply checksum_format.
  destruct (lower_hex_parts _ _ Hsalt) as [L1 A1].
  destruct (lower_hex_parts _ _ Hdig) as [L2 A2].
  destruct (lower_hex_parts _ _ Hsum) as [L3 A3].
  assert (Hsplit : split dot (salt ++ "." ++ digest ++ "." ++ sum) = [salt; digest; sum]).
  { apply (split_three dot); apply lower_hex_no_dot; assumption. }
  repeat split; try assumption.
  - rewrite !length_append, L1, L2, L3. reflexivity.
  - unfold Spec.key_format. rewrite Hsplit, Hsalt, Hdig, Hsum. reflexivity.
Qed.

Lemma firstn_length_16 (l : list byte) :
  16 <= List.length l -> List.length (firstn 16 l) = 16.
Proof. intros H. rewrite length_firstn. lia. Qed.

End GenerateFacts.

(** ** What a valid domain cannot contain *)

Section DomainRejections.
Import Node Main JsString.

Lemma all_concat_parts p sep parts :
  all p (String.concat (String sep "") parts) = true ->
  forall part, In part parts -> all p part = true.
Proof.
  induction parts as [|x parts IH]; intros H part Hin; [destruct Hin|].
  destruct parts as [|y parts].
  - destruct Hin as [<-|[]]. exact H.
  - change (String.concat (String sep "") (x :: y :: parts))
      with (x ++ String sep "" ++ String.concat (String sep "") (y :: parts)) in H.
    rewrite !all_append in H.
    apply andb_true_iff in H. destruct H as [Hx H].
    apply andb_true_iff in H. destruct H as [_ H].
    destruct Hin as [<-|Hin]; [exact Hx | exact (IH H part Hin)].
Qed.

Lemma count_concat_zero c sep parts :
  Ascii.eqb sep c = false ->
  (forall part, In part parts -> count c part = 0) ->
  count c (String.concat (String sep "") parts) = 0.
Proof.
  intros Hsep. induction parts as [|x parts IH]; intros H; [reflexivity|].
  destruct parts as [|y parts].
  - apply H. left. reflexivity.
  - change (String.concat (String sep "") (x :: y :: parts))
      with (x ++ String sep "" ++ String.concat (String sep "") (y :: parts)).
    rewrite !count_append. rewrite (H x (or_introl eq_refl)).
    rewrite IH; [|intros part Hin; apply H; right; exact Hin].
    simpl. rewrite Hsep. reflexivity.
Qed.

Lemma all_first_char p s c : all p s = true -> Spec.first_char s = Some c -> p c = true.
Proof.
  destruct s as [|d s]; simpl; [discriminate|].
  intros H E. injection E as <-. apply andb_true_iff in H. tauto.
Qed.

Lemma all_last_char p s c : all p s = true -> Spec.last_char s = Some c -> p c = true.
Proof.
  induction s as [|d s IH]; [discriminate|].
  intros H E. simpl in H. apply andb_true_iff in H. destruct H as [Hd Hs].
  destruct s as [|e s].
  - simpl in E. injection E as <-. exact Hd.
  - apply IH; assumption.
Qed.

(** The parts of a domain the grammar accepts. *)
Lemma grammar_parts d :
  Spec.domain_grammar d = true ->
  exists label seg segs,
    split dot d = label :: seg :: segs
    /\ Spec.label_ok label = true
    /\ forallb Spec.segment_ok (seg :: segs) = true.
Proof.
  unfold Spec.domain_grammar. intros H.
  destruct (split dot d) as [|label [|seg segs]]; try discriminate H.
  apply andb_true_iff in H. destruct H as [H1 H2].
  exists label, seg, segs. auto.
Qed.

Lemma label_ok_chars l :
  Spec.label_ok l = true ->
  all Spec.is_alnum_or_hyphen l = true
  /\ Spec.holds is_alnum (Spec.first_char l) = true
  /\ Spec.holds is_alnum (Spec.last_char l) = true
  /\ 3 <= String.length l <= 63.
Proof.
  intros H. destruct (label_ok_shape _ H) as (c1 & mid & c2 & ->).
  pose proof H as H'. rewrite label_ok_snoc in H'.
  repeat (apply andb_true_iff in H'; destruct H' as [H' ?]).
  unfold Spec.label_ok in H.
  repeat (apply andb_true_iff in H; destruct H as [H ?]).
  repeat split; try assumption.
  - simpl. rewrite all_append. simpl.
    rewrite (alnum_is_alnum_or_hyphen _ H'), (alnum_is_alnum_or_hyphen c2) by assumption.
    rewrite andb_true_r. assumption.
  - apply Nat.leb_le. assumption.
  - apply Nat.leb_le. assumption.
Qed.

Lemma segment_ok_parts g :
  Spec.segment_ok g = true -> 2 <= String.length g /\ all is_alpha g = true.
Proof.
  unfold Spec.segment_ok. intros H. apply andb_true_iff in H.
  destruct H as [H1 H2]. apply Nat.leb_le in H1. auto.
Qed.

Lemma alpha_is_alnum_or_hyphen c : is_alpha c = true -> Spec.is_alnum_or_hyphen c = true.
Proof. unfold Spec.is_alnum_or_hyphen, is_alnum. intros ->. reflexivity. Qed.

(** Every part of an accepted domain is made of letters, digits and
    hyphens, and has two characters or more. *)
Lemma grammar_part_chars d part :
  Spec.domain_grammar d = true -> In part (split dot d) ->
  all Spec.is_alnum_or_hyphen part = true /\ 2 <= String.length part
  /\ (forall c, Spec.first_char part = Some c -> is_alnum c = true)
  /\ (forall c, Spec.last_char part = Some c -> is_alnum c = true).
Proof.
  intros H Hin. destruct (grammar_parts d H) as (label & seg & segs & Hs & Hl & Hg).
  rewrite Hs in Hin. destruct Hin as [<-|Hin].
  - destruct (label_ok_chars _ Hl) as (A & F & L & Len).
    repeat split; try assumption; try lia.
    + intros c E. rewrite E in F. exact F.
    + intros c E. rewrite E in L. exact L.
  - rewrite forallb_forall in Hg. specialize (Hg part Hin).
    destruct (segment_ok_parts _ Hg) as [Len A].
    repeat split; try assumption.
    + apply (all_impl is_alpha); [apply alpha_is_alnum_or_hyphen | exact A].
    + intros c E. unfold is_alnum. rewrite (all_first_char _ _ _ A E). reflexivity.
    + intros c E. unfold is_alnum. rewrite (all_last_char _ _ _ A E). reflexivity.
Qed.

Lemma not_valid d : Spec.domain_grammar d <> true -> isValidDomain d = false.
Proof.
  intros H. rewrite isValidDomain_grammar.
  destruct (Spec.domain_grammar d); congruence.
Qed.

(** A character outside letters, digits, hyphen and dot makes a domain
    invalid. *)
Lemma foreign_char_rejected c d :
  Spec.is_alnum_or_hyphen c = false -> Ascii.eqb dot c = false ->
  count c d <> 0 -> isValidDomain d = false.
Proof.
  intros Hc Hdot Hcount. apply not_valid. intros H. apply Hcount.
  rewrite <- (concat_split dot d). apply count_concat_zero; [exact Hdot|].
  intros part Hin. destruct (grammar_part_chars d part H Hin) as (A & _).
  apply count_all_neq. apply (all_impl Spec.is_alnum_or_hyphen); [|exact A].
  intros x Hx. destruct (Ascii.eqb x c) eqn:E; [|reflexivity].
  apply Ascii.eqb_eq in E. subst x. congruence.
Qed.

Lemma alpha_not_digit_or_dot c :
  is_alpha c = true -> is_digit c || Ascii.eqb c dot = false.
Proof.
  destruct c as [[] [] [] [] [] [] [] []]; vm_compute; intros H;
    first [reflexivity | discriminate H].
Qed.

End DomainRejections.

(** ** The claims *)

Section Claims.
Import Node Main JsString.

(** C4: for every input string, in every world, [calculateChecksum]
    returns the MD5 digest of the string in lowercase hexadecimal cut to
    its first 8 characters, which are the encoding of the first 4 of the
    16 bytes of the digest; the result does not depend on the world and
    the random source is left untouched (no salt). *)
Theorem calculateChecksum_md5_prefix (data : string) (w : World) :
  value (calculateChecksum data) w = Normal (JsString.substring (Spec.md5_hex data) 0 8)
  /\ JsString.substring (Spec.md5_hex data) 0 8
     = Hex.toString (firstn 4 (MD5.digest (list_byte_of_string data)))
  /\ List.length (MD5.digest (list_byte_of_string data)) = 16
  /\ Spec.lower_hex 32 (Spec.md5_hex data) = true
  /\ Spec.lower_hex 8 (JsString.substring (Spec.md5_hex data) 0 8) = true
  /\ (forall w', value (calculateChecksum data) w' = value (calculateChecksum data) w)
  /\ entropy (after (calculateChecksum data) w) = entropy w.
Proof.
  repeat split.
  - apply (checksum_first_bytes data).
  - apply md5_digest_length.
  - apply md5_hex_format.
  - apply (checksum_format data).
Qed.

(** C1: for every core key with exactly one dot, [addChecksum] returns
    the core key followed by a dot and its checksum, and [verify] on that
    result reports the key valid, with the two sides of the dot as salt
    and hash. *)
Theorem addChecksum_verify_roundtrip (coreKey : string) (w w' : World) :
  count dot coreKey = 1 ->
  exists fullKey salt hash,
    value (addChecksum coreKey) w = Normal fullKey
    /\ coreKey = salt ++ "." ++ hash
    /\ split dot fullKey = [salt; hash; Spec.checksum coreKey]
    /\ value (verify fullKey) w' = Normal tt
    /\ events (verify fullKey) w' =
       [CreateHash md5; ConsoleLog "License key is valid";
        ConsoleLog ("Salt: " ++ salt); ConsoleLog ("Hash: " ++ hash);
        ConsoleLog ("Checksum: " ++ Spec.checksum coreKey)]
    /\ exit_status (events (verify fullKey) w') = 0%Z.
Proof.
  intros H. destruct (count_one_split dot coreKey H) as (a & b & -> & Ha & Hb).
  assert (Hs : split dot ((a ++ String dot b) ++ "." ++ Spec.checksum (a ++ String dot b))
               = [a; b; Spec.checksum (a ++ String dot b)]).
  { rewrite append_assoc. apply (split_with_checksum a b Ha Hb). }
  exists ((a ++ String dot b) ++ "." ++ Spec.checksum (a ++ String dot b)), a, b.
  assert (He : events (verify ((a ++ String dot b) ++ "." ++ Spec.checksum (a ++ String dot b))) w'
               = [CreateHash md5; ConsoleLog "License key is valid";
                  ConsoleLog ("Salt: " ++ a); ConsoleLog ("Hash: " ++ b);
                  ConsoleLog ("Checksum: " ++ Spec.checksum (a ++ String dot b))]).
  { apply (verify_events_valid _ a b _ w' Hs). reflexivity. }
  repeat split; try assumption.
  - apply verify_value.
  - rewrite He. reflexivity.
Qed.

Lemma addChecksum_verify_roundtrip_witness :
  count dot "x.y" = 1 /\
  exists fullKey salt hash,
    value (addChecksum "x.y") Examples.world = Normal fullKey
    /\ "x.y" = salt ++ "." ++ hash
    /\ split dot fullKey = [salt; hash; Spec.checksum "x.y"]
    /\ value (verify fullKey) Examples.other_world = Normal tt
    /\ events (verify fullKey) Examples.other_world =
       [CreateHash md5; ConsoleLog "License key is valid";
        ConsoleLog ("Salt: " ++ salt); ConsoleLog ("Hash: " ++ hash);
        ConsoleLog ("Checksum: " ++ Spec.checksum "x.y")]
    /\ exit_status (events (verify fullKey) Examples.other_world) = 0%Z.
Proof.
  split; [reflexivity|].
  apply (addChecksum_verify_roundtrip "x.y" Examples.world Examples.other_world).
  reflexivity.
Defined.

(** C3: a key whose split on the dot has a number of parts other than 3
    fails with the message of a malformed key and creates no hash; a key
    of 3 parts whose third part is not the checksum of the first two
    fails with the message of a checksum mismatch; both exit with status
    1, and the lines they leave on standard error differ. *)
Theorem verify_failure_kinds (key : string) (w : World) :
  (List.length (split dot key) <> 3 ->
     events (verify key) w =
       [ConsoleError "Error: Invalid license key format"; ProcessExit 1])
  /\ (forall salt hash checksum,
        split dot key = [salt; hash; checksum] ->
        checksum <> Spec.checksum (salt ++ "." ++ hash) ->
        events (verify key) w =
          [CreateHash md5; ConsoleError "Error: Invalid license key: checksum mismatch";
           ProcessExit 1])
  /\ (forall key' salt hash checksum w',
        List.length (split dot key) <> 3 ->
        split dot key' = [salt; hash; checksum] ->
        checksum <> Spec.checksum (salt ++ "." ++ hash) ->
        stderr (events (verify key) w) <> stderr (events (verify key') w')
        /\ exit_status (events (verify key) w) = 1%Z
        /\ exit_status (events (verify key') w') = 1%Z).
Proof.
  split; [apply verify_events_malformed|].
  split; [intros salt hash checksum; apply verify_events_mismatch|].
  intros key' salt hash checksum w' H1 H2 H3.
  rewrite (verify_events_malformed key w H1).
  rewrite (verify_events_mismatch key' salt hash checksum w' H2 H3).
  repeat split. discriminate.
Qed.

Lemma verify_failure_kinds_witness :
  events (verify "deadbeef.cafebabe") Examples.world =
    [ConsoleError "Error: Invalid license key format"; ProcessExit 1]
  /\ events (verify "dead.beef.cafe.babe") Examples.world =
    [ConsoleError "Error: Invalid license key format"; ProcessExit 1]
  /\ events (verify "deadbeef.cafebabe.00000000") Examples.world =
    [CreateHash md5; ConsoleError "Error: Invalid license key: checksum mismatch";
     ProcessExit 1]
  /\ stderr (events (verify "deadbeef.cafebabe") Examples.world)
     <> stderr (events (verify "deadbeef.cafebabe.00000000") Examples.world).
Proof.
  split; [|split; [|split]].
  - apply (proj1 (verify_failure_kinds "deadbeef.cafebabe" Examples.world)).
    vm_compute. discriminate.
  - apply (proj1 (verify_failure_kinds "dead.beef.cafe.babe" Examples.world)).
    vm_compute. discriminate.
  - apply (proj1 (proj2 (verify_failure_kinds "deadbeef.cafebabe.00000000" Examples.world))
             "deadbeef" "cafebabe" "00000000").
    + reflexivity.
    + vm_compute. discriminate.
  - apply (proj2 (proj2 (verify_failure_kinds "deadbeef.cafebabe" Examples.world))
             "deadbeef.cafebabe.00000000" "deadbeef" "cafebabe" "00000000" Examples.world).
    + vm_compute. discriminate.
    + reflexivity.
    + vm_compute. discriminate.
Defined.

(** C10: [verify] checks the number of parts and the checksum, and nothing
    else: any two strings without a dot, joined with the checksum of their
    joining, are reported valid, whatever their length and characters;
    so are [x.y.b2d4cd28], which has not the format of a key, and a key
    with an empty salt and an empty hash.  A run of [verify] fails
    exactly when the number of parts is not 3 or the third part is not
    the checksum of the first two. *)
Theorem verify_checks_no_shape (w : World) :
  (forall salt hash,
      count dot salt = 0 -> count dot hash = 0 ->
      events (verify (salt ++ "." ++ hash ++ "." ++ Spec.checksum (salt ++ "." ++ hash))) w =
        [CreateHash md5; ConsoleLog "License key is valid";
         ConsoleLog ("Salt: " ++ salt); ConsoleLog ("Hash: " ++ hash);
         ConsoleLog ("Checksum: " ++ Spec.checksum (salt ++ "." ++ hash))])
  /\ ("x" ++ "." ++ "y" ++ "." ++ Spec.checksum "x.y" = "x.y.b2d4cd28"
      /\ Spec.key_format "x.y.b2d4cd28" = false
      /\ events (verify "x.y.b2d4cd28") w =
           [CreateHash md5; ConsoleLog "License key is valid";
            ConsoleLog "Salt: x"; ConsoleLog "Hash: y"; ConsoleLog "Checksum: b2d4cd28"])
  /\ ("" ++ "." ++ "" ++ "." ++ Spec.checksum "." = "..5058f1af"
      /\ events (verify "..5058f1af") w =
           [CreateHash md5; ConsoleLog "License key is valid";
            ConsoleLog "Salt: "; ConsoleLog "Hash: "; ConsoleLog "Checksum: 5058f1af"])
  /\ (forall key,
        exit_status (events (verify key) w) <> 0%Z <->
        (List.length (split dot key) <> 3
         \/ nth 2 (split dot key) ""
            <> Spec.checksum (nth 0 (split dot key) "" ++ "." ++ nth 1 (split dot key) ""))).
Proof.
  split; [|split; [|split]].
  - intros salt hash Ha Hb.
    apply (verify_events_valid _ salt hash); [|reflexivity].
    apply split_with_checksum; assumption.
  - split; [vm_compute; reflexivity|]. split; [vm_compute; reflexivity|].
    rewrite verify_events. vm_compute. reflexivity.
  - split; [vm_compute; reflexivity|].
    rewrite verify_events. vm_compute. reflexivity.
  - intros key. rewrite verify_events.
    destruct (split dot key) as [|a [|b [|c [|d l]]]];
      try (split; [intros _; left; simpl; lia | intros _; simpl; discriminate]).
    cbn [nth List.length].
    destruct (String.eqb c (Spec.checksum (a ++ "." ++ b))) eqn:E.
    + apply String.eqb_eq in E. split.
      * intros H. exfalso. apply H. reflexivity.
      * intros [H|H]; congruence.
    + apply String.eqb_neq in E. split.
      * intros _. right. exact E.
      * intros _. simpl. discriminate.
Qed.

Lemma verify_checks_no_shape_witness :
  events (verify ("not-hex" ++ "." ++ "" ++ "." ++ Spec.checksum ("not-hex" ++ "." ++ ""))) Examples.world =
    [CreateHash md5; ConsoleLog "License key is valid";
     ConsoleLog ("Salt: " ++ "not-hex"); ConsoleLog ("Hash: " ++ "");
     ConsoleLog ("Checksum: " ++ Spec.checksum ("not-hex" ++ "." ++ ""))].
Proof.
  apply (proj1 (verify_checks_no_shape Examples.world) "not-hex" ""); reflexivity.
Defined.

(** C5: when the random source delivers the 16 bytes [saltBytes],
    [generateLicenseKey] returns the salt (their 32 lowercase hexadecimal
    characters), a dot, and the 64 lowercase hexadecimal characters of the
    SHA-256 digest of salt-domain-expire-hardwareId; the rest of the
    random source is left.  The fields are joined as they are, with no
    length prefix: two triples with the same joining give the same key. *)
Theorem generateLicenseKey_core_key
    (domain expire hardwareId : string) (w : World) (saltBytes rest : list byte) :
  entropy w = (saltBytes ++ rest)%list ->
  List.length saltBytes = 16 ->
  let salt := Hex.toString saltBytes in
  let digest := Spec.sha256_hex (salt ++ "-" ++ domain ++ "-" ++ expire ++ "-" ++ hardwareId) in
  value (generateLicenseKey domain expire hardwareId) w = Normal (salt ++ "." ++ digest)
  /\ Spec.lower_hex 32 salt = true
  /\ Spec.lower_hex 64 digest = true
  /\ entropy (after (generateLicenseKey domain expire hardwareId) w) = rest
  /\ (forall domain' expire' hardwareId',
        domain' ++ "-" ++ expire' ++ "-" ++ hardwareId'
        = domain ++ "-" ++ expire ++ "-" ++ hardwareId ->
        value (generateLicenseKey domain' expire' hardwareId') w
        = value (generateLicenseKey domain expire hardwareId) w).
Proof.
  intros He Hl salt digest.
  assert (Hf : firstn 16 (entropy w) = saltBytes).
  { rewrite He, <- Hl. rewrite firstn_app, Nat.sub_diag, firstn_all. simpl. apply app_nil_r. }
  assert (Hs : skipn 16 (entropy w) = rest).
  { rewrite He, <- Hl. rewrite skipn_app, Nat.sub_diag, skipn_all. reflexivity. }
  assert (Hle : (16 <=? List.length (entropy w))%nat = true).
  { apply Nat.leb_le. rewrite He, length_app. lia. }
  assert (Hrun : forall d e h,
             generateLicenseKey d e h w =
             (Normal (salt ++ "." ++ Spec.sha256_hex (salt ++ "-" ++ d ++ "-" ++ e ++ "-" ++ h)),
              mkWorld (now w) (date_parse w) (machine_id w) rest
                      (trace w ++ [CreateHash sha256] ++ [RandomBytes 16])%list)).
  { intros d e h. rewrite generateLicenseKey_run, Hle. cbv zeta. rewrite Hf, Hs. reflexivity. }
  repeat split.
  - unfold value. rewrite Hrun. reflexivity.
  - apply (lower_hex_toString 16). exact Hl.
  - apply sha256_hex_format.
  - unfold after. rewrite Hrun. reflexivity.
  - intros d e h E. unfold value. rewrite !Hrun. cbn [fst]. rewrite E. reflexivity.
Qed.

Lemma generateLicenseKey_core_key_witness :
  value (generateLicenseKey "example.com" "2099-12-31" "abc123") Examples.world
  = Normal (Hex.toString Examples.salt_bytes ++ "."
            ++ Spec.sha256_hex (Hex.toString Examples.salt_bytes
                                ++ "-" ++ "example.com" ++ "-" ++ "2099-12-31" ++ "-" ++ "abc123"))
  /\ Hex.toString Examples.salt_bytes = "000102030405060708090a0b0c0d0eff"
  /\ value (generateLicenseKey "a-b" "c" "abc123") Examples.world
     = value (generateLicenseKey "a" "b-c" "abc123") Examples.world.
Proof.
  pose proof (generateLicenseKey_core_key "example.com" "2099-12-31" "abc123"
                Examples.world Examples.salt_bytes [x11] eq_refl eq_refl) as H1.
  pose proof (generateLicenseKey_core_key "a" "b-c" "abc123"
                Examples.world Examples.salt_bytes [x11] eq_refl eq_refl) as H2.
  cbv zeta in H1, H2.
  split; [exact (proj1 H1)|]. split; [reflexivity|].
  exact (proj2 (proj2 (proj2 (proj2 H2))) "a-b" "c" "abc123" eq_refl).
Defined.

(** C2: when the domain and the expiration date are valid, the machine id
    is available and the random source delivers 16 bytes, [generate]
    prints one key, made of a salt of 32, a digest of 64 and a checksum of
    8 lowercase hexadecimal characters joined by dots: 3 parts, 106
    characters; [verify] on that key reports it valid with the same three
    parts. *)
Theorem generate_key_format (domain expire hardwareId : string) (w : World) :
  isValidDomain domain = true ->
  value (isValidExpirationDate expire) w = Normal true ->
  machine_id w = Normal hardwareId ->
  16 <= List.length (entropy w) ->
  exists salt digest checksum,
    let key := salt ++ "." ++ digest ++ "." ++ checksum in
    events (generate domain expire) w =
      [ReadClock; MachineIdSync; CreateHash sha256; RandomBytes 16; CreateHash md5;
       ConsoleLog ("Generated License Key: " ++ key)]
    /\ exit_status (events (generate domain expire) w) = 0%Z
    /\ Spec.lower_hex 32 salt = true
    /\ Spec.lower_hex 64 digest = true
    /\ Spec.lower_hex 8 checksum = true
    /\ split dot key = [salt; digest; checksum]
    /\ String.length key = 106
    /\ (forall w',
          events (verify key) w' =
            [CreateHash md5; ConsoleLog "License key is valid";
             ConsoleLog ("Salt: " ++ salt); ConsoleLog ("Hash: " ++ digest);
             ConsoleLog ("Checksum: " ++ checksum)]).
Proof.
  intros Hd He Hm Hr.
  pose proof (generate_events domain expire w) as Hev.
  rewrite Hd, He, Hm in Hev. cbn [negb] in Hev.
  apply Nat.leb_le in Hr. rewrite Hr in Hev. cbv zeta in Hev. apply Nat.leb_le in Hr.
  set (salt := Hex.toString (firstn 16 (entropy w))) in *.
  set (digest := Spec.sha256_hex (salt ++ "-" ++ domain ++ "-" ++ expire ++ "-" ++ hardwareId)) in *.
  destruct (generated_key_shape (firstn 16 (entropy w))
              (salt ++ "-" ++ domain ++ "-" ++ expire ++ "-" ++ hardwareId)
              (firstn_length_16 _ Hr))
    as (H1 & H2 & H3 & H4 & H5 & _).
  fold salt in H1, H2, H3, H4, H5. fold digest in H2, H3, H4, H5.
  exists salt, digest, (Spec.checksum (salt ++ "." ++ digest)). cbv zeta.
  assert (Hassoc : (salt ++ "." ++ digest) ++ "." ++ Spec.checksum (salt ++ "." ++ digest)
                   = salt ++ "." ++ digest ++ "." ++ Spec.checksum (salt ++ "." ++ digest)).
  { rewrite append_assoc. reflexivity. }
  rewrite Hassoc in Hev.
  repeat split; try assumption.
  - rewrite Hev. reflexivity.
  - intros w'. apply (verify_events_valid _ _ _ _ w' H4). reflexivity.
Qed.

Lemma generate_key_format_witness :
  exists salt digest checksum,
    let key := salt ++ "." ++ digest ++ "." ++ checksum in
    events (generate "example.com" "2099-12-31") Examples.world =
      [ReadClock; MachineIdSync; CreateHash sha256; RandomBytes 16; CreateHash md5;
       ConsoleLog ("Generated License Key: " ++ key)]
    /\ exit_status (events (generate "example.com" "2099-12-31") Examples.world) = 0%Z
    /\ Spec.lower_hex 32 salt = true
    /\ Spec.lower_hex 64 digest = true
    /\ Spec.lower_hex 8 checksum = true
    /\ split dot key = [salt; digest; checksum]
    /\ String.length key = 106
    /\ (forall w',
          events (verify key) w' =
            [CreateHash md5; ConsoleLog "License key is valid";
             ConsoleLog ("Salt: " ++ salt); ConsoleLog ("Hash: " ++ digest);
             ConsoleLog ("Checksum: " ++ checksum)]).
Proof.
  apply (generate_key_format "example.com" "2099-12-31" "abc123" Examples.world).
  - vm_compute. reflexivity.
  - vm_compute. reflexivity.
  - reflexivity.
  - simpl. lia.
Defined.

(** C8: [generate] checks the domain, then the date, then asks for the
    machine id, then draws the salt and hashes, then appends the checksum;
    it stops at the first step that fails, with the message of that step
    and exit status 1.  With an invalid domain it reads no clock, asks for
    no machine id, draws no random byte and creates no hash, whatever the
    other inputs.  A line on standard output is always a whole key. *)
Theorem generate_fail_fast (domain expire : string) (w : World) :
  (isValidDomain domain = false ->
     events (generate domain expire) w =
       [ConsoleError "Error: Invalid domain format"; ProcessExit 1]
     /\ (forall alg, ~ In (CreateHash alg) (events (generate domain expire) w))
     /\ entropy (after (generate domain expire) w) = entropy w)
  /\ (isValidDomain domain = true ->
      value (isValidExpirationDate expire) w = Normal false ->
      events (generate domain expire) w =
        [ReadClock;
         ConsoleError "Error: Invalid expiration date. Use format YYYY-MM-DD and date must be in the future";
         ProcessExit 1]
      /\ entropy (after (generate domain expire) w) = entropy w)
  /\ (forall message,
        isValidDomain domain = true ->
        value (isValidExpirationDate expire) w = Normal true ->
        machine_id w = Throw message ->
        events (generate domain expire) w =
          [ReadClock; MachineIdSync; ConsoleError ("Error: " ++ message); ProcessExit 1]
        /\ entropy (after (generate domain expire) w) = entropy w)
  /\ (forall hardwareId,
        isValidDomain domain = true ->
        value (isValidExpirationDate expire) w = Normal true ->
        machine_id w = Normal hardwareId ->
        List.length (entropy w) < 16 ->
        events (generate domain expire) w =
          [ReadClock; MachineIdSync; CreateHash sha256; RandomBytes 16;
           ConsoleError "Error: Failed to generate license key"; ProcessExit 1])
  /\ (forall hardwareId,
        isValidDomain domain = true ->
        value (isValidExpirationDate expire) w = Normal true ->
        machine_id w = Normal hardwareId ->
        16 <= List.length (entropy w) ->
        exists key,
          events (generate domain expire) w =
            [ReadClock; MachineIdSync; CreateHash sha256; RandomBytes 16; CreateHash md5;
             ConsoleLog ("Generated License Key: " ++ key)]
          /\ Spec.key_format key = true)
  /\ (forall line,
        In line (stdout (events (generate domain expire) w)) ->
        exists key, line = "Generated License Key: " ++ key /\ Spec.key_format key = true)
  /\ value (generate domain expire) w = Normal tt.
Proof.
  pose proof (generate_events domain expire w) as Hev.
  pose proof (generate_entropy domain expire w) as Hen.
  assert (Hok : forall hardwareId,
             16 <= List.length (entropy w) ->
             Spec.key_format
               ((Hex.toString (firstn 16 (entropy w)) ++ "." ++
                 Spec.sha256_hex (Hex.toString (firstn 16 (entropy w)) ++ "-" ++ domain
                                    ++ "-" ++ expire ++ "-" ++ hardwareId))
                ++ "." ++
                Spec.checksum
                  (Hex.toString (firstn 16 (entropy w)) ++ "." ++
                   Spec.sha256_hex (Hex.toString (firstn 16 (entropy w)) ++ "-" ++ domain
                                      ++ "-" ++ expire ++ "-" ++ hardwareId))) = true).
  { intros h Hr. rewrite append_assoc.
    apply (generated_key_shape (firstn 16 (entropy w)) _ (firstn_length_16 _ Hr)). }
  repeat apply conj.
  - intros Hd. rewrite Hd in Hev, Hen. cbn [negb] in Hev, Hen.
    rewrite Hev. repeat split; [|exact Hen].
    intros alg [H|[H|[]]]; discriminate H.
  - intros Hd He. rewrite Hd, He in Hev, Hen. cbn [negb] in Hev, Hen. auto.
  - intros message Hd He Hm. rewrite Hd, He, Hm in Hev, Hen. cbn [negb] in Hev, Hen. auto.
  - intros h Hd He Hm Hr. rewrite Hd, He, Hm in Hev. cbn [negb] in Hev.
    apply Nat.leb_gt in Hr. rewrite Hr in Hev. exact Hev.
  - intros h Hd He Hm Hr. rewrite Hd, He, Hm in Hev. cbn [negb] in Hev.
    pose proof Hr as Hr'. apply Nat.leb_le in Hr'. rewrite Hr' in Hev. cbv zeta in Hev.
    eexists. split; [exact Hev|]. apply Hok. exact Hr.
  - intros line Hin. rewrite Hev in Hin.
    destruct (negb (isValidDomain domain)); [destruct Hin|].
    destruct (value (isValidExpirationDate expire) w) as [[|]|]; try (destruct Hin).
    destruct (machine_id w) as [h|m]; [|destruct Hin].
    destruct (16 <=? List.length (entropy w))%nat eqn:Hr; [|destruct Hin].
    cbv zeta in Hin. destruct Hin as [<-|[]].
    eexists. split; [reflexivity|]. apply Hok. apply Nat.leb_le. exact Hr.
  - apply generate_value.
Qed.

Lemma generate_fail_fast_witness :
  (events (generate "-bad-.com" "not a date") Examples.world =
     [ConsoleError "Error: Invalid domain format"; ProcessExit 1]
   /\ (forall alg, ~ In (CreateHash alg) (events (generate "-bad-.com" "not a date") Examples.world))
   /\ entropy (after (generate "-bad-.com" "not a date") Examples.world) = entropy Examples.world)
  /\ (events (generate "example.com" "2020-01-01") Examples.world =
        [ReadClock;
         ConsoleError "Error: Invalid expiration date. Use format YYYY-MM-DD and date must be in the future";
         ProcessExit 1]
      /\ entropy (after (generate "example.com" "2020-01-01") Examples.world) = entropy Examples.world)
  /\ (exists key,
        events (generate "example.com" "2099-12-31") Examples.world =
          [ReadClock; MachineIdSync; CreateHash sha256; RandomBytes 16; CreateHash md5;
           ConsoleLog ("Generated License Key: " ++ key)]
        /\ Spec.key_format key = true).
Proof.
  split; [|split].
  - apply (proj1 (generate_fail_fast "-bad-.com" "not a date" Examples.world)).
    vm_compute. reflexivity.
  - apply (proj1 (proj2 (generate_fail_fast "example.com" "2020-01-01" Examples.world))).
    + vm_compute. reflexivity.
    + vm_compute. reflexivity.
  - apply (proj1 (proj2 (proj2 (proj2 (proj2
             (generate_fail_fast "example.com" "2099-12-31" Examples.world))))) "abc123").
    + vm_compute. reflexivity.
    + vm_compute. reflexivity.
    + reflexivity.
    + simpl. lia.
Defined.

(** C6: the claim asks that an accepted string parse to a real calendar
    date, and the code tests only that the engine's parser does not give
    NaN.  With the parser of Node's engine the string 2099-02-31, which is
    no date of the calendar, is read as 2099-03-03: [isValidExpirationDate]
    returns true for it and [generate] prints a key. *)
Theorem isValidExpirationDate_accepts_impossible_date :
  Spec.date_pattern "2099-02-31" = true
  /\ Date_only.parse "2099-02-31" = None
  /\ date_parse Examples.node_world "2099-02-31" = Date_only.parse "2099-03-03"
  /\ value (isValidExpirationDate "2099-02-31") Examples.node_world = Normal true
  /\ events (generate "example.com" "2099-02-31") Examples.node_world =
       [ReadClock; MachineIdSync; CreateHash sha256; RandomBytes 16; CreateHash md5;
        ConsoleLog ("Generated License Key: " ++ Examples.rolled_key)]
  /\ Spec.key_format Examples.rolled_key = true.
Proof.
  repeat split; vm_compute; reflexivity.
Qed.

(** C7: [isValidDomain] accepts exactly the strings that split on the dot
    into a first label (alphanumeric first and last characters,
    alphanumeric or hyphen between, 3 to 63 characters) followed by one or
    more segments of two or more letters.  It rejects a string with a
    label that starts or ends with a hyphen, a string with an underscore,
    a string of digits and dots (an IPv4 literal), a string with a colon
    (an IPv6 literal), a string without a dot (no TLD), and a string with
    a label of one character. *)
Theorem isValidDomain_grammar_rejections (d : string) :
  isValidDomain d = Spec.domain_grammar d
  /\ (forall label, In label (split dot d) ->
        Spec.starts_with hyphen label = true \/ Spec.ends_with hyphen label = true ->
        isValidDomain d = false)
  /\ (count "_" d <> 0 -> isValidDomain d = false)
  /\ (all (fun c => is_digit c || Ascii.eqb c dot) d = true -> isValidDomain d = false)
  /\ (count ":" d <> 0 -> isValidDomain d = false)
  /\ (count dot d = 0 -> isValidDomain d = false)
  /\ (forall label, In label (split dot d) -> String.length label = 1 ->
        isValidDomain d = false).
Proof.
  split; [apply isValidDomain_grammar|].
  split; [|split; [|split; [|split; [|split]]]].
  - intros label Hin Hh. apply not_valid. intros H.
    destruct (grammar_part_chars d label H Hin) as (_ & _ & F & L).
    unfold Spec.starts_with, Spec.ends_with in Hh.
    destruct Hh as [Hh|Hh].
    + destruct (Spec.first_char label) as [c|]; [|discriminate Hh].
      cbn [Spec.holds] in Hh. apply Ascii.eqb_eq in Hh. subst c.
      specialize (F _ eq_refl). discriminate F.
    + destruct (Spec.last_char label) as [c|]; [|discriminate Hh].
      cbn [Spec.holds] in Hh. apply Ascii.eqb_eq in Hh. subst c.
      specialize (L _ eq_refl). discriminate L.
  - apply foreign_char_rejected; reflexivity.
  - intros Hall. apply not_valid. intros H.
    destruct (grammar_parts d H) as (label & seg & segs & Hs & _ & Hg).
    simpl in Hg. apply andb_true_iff in Hg. destruct Hg as [Hg _].
    destruct (segment_ok_parts _ Hg) as [Len A].
    rewrite <- (concat_split dot d) in Hall.
    assert (Hseg : all (fun c => is_digit c || Ascii.eqb c dot) seg = true).
    { apply (all_concat_parts _ dot (split dot d) Hall). rewrite Hs. right. left. reflexivity. }
    destruct seg as [|a seg]; [simpl in Len; lia|].
    simpl in A, Hseg. apply andb_true_iff in A, Hseg.
    destruct A as [A _], Hseg as [Hseg _].
    rewrite (alpha_not_digit_or_dot a A) in Hseg. discriminate Hseg.
  - apply foreign_char_rejected; reflexivity.
  - intros H0. apply not_valid. unfold Spec.domain_grammar.
    rewrite (split_no_sep dot d H0). discriminate.
  - intros label Hin Hlen. apply not_valid. intros H.
    destruct (grammar_part_chars d label H Hin) as (_ & Len & _). lia.
Qed.

Lemma isValidDomain_grammar_rejections_witness :
  isValidDomain "-example.com" = false
  /\ isValidDomain "example-.com" = false
  /\ isValidDomain "my_site.com" = false
  /\ isValidDomain "192.168.1.1" = false
  /\ isValidDomain "2001:db8::1" = false
  /\ isValidDomain "localhost" = false
  /\ isValidDomain "a.com" = false
  /\ isValidDomain "example.com" = true.
Proof.
  repeat apply conj.
  - apply (proj1 (proj2 (isValidDomain_grammar_rejections "-example.com")) "-example").
    + vm_compute. auto.
    + left. reflexivity.
  - apply (proj1 (proj2 (isValidDomain_grammar_rejections "example-.com")) "example-").
    + vm_compute. auto.
    + right. reflexivity.
  - apply (proj1 (proj2 (proj2 (isValidDomain_grammar_rejections "my_site.com")))).
    vm_compute. discriminate.
  - apply (proj1 (proj2 (proj2 (proj2 (isValidDomain_grammar_rejections "192.168.1.1"))))).
    reflexivity.
  - apply (proj1 (proj2 (proj2 (proj2 (proj2 (isValidDomain_grammar_rejections "2001:db8::1")))))).
    vm_compute. discriminate.
  - apply (proj1 (proj2 (proj2 (proj2 (proj2 (proj2
             (isValidDomain_grammar_rejections "localhost"))))))).
    reflexivity.
  - apply (proj2 (proj2 (proj2 (proj2 (proj2 (proj2
             (isValidDomain_grammar_rejections "a.com")))))) "a").
    + vm_compute. auto.
    + reflexivity.
  - rewrite (proj1 (isValidDomain_grammar_rejections "example.com")). reflexivity.
Defined.

End Claims.

(** ** Further properties of the code *)

Section Further.
Import Node Main JsString.

(** Two runs of [generateLicenseKey] and [addChecksum] on the same domain,
    date and hardware id, with different 16-byte salts from the random
    source, give different full keys with different salt parts, and
    [verify] reports each of the two keys valid. *)
Theorem distinct_salts_distinct_keys
    (domain expire hardwareId : string) (w1 w2 w : World)
    (salt1 salt2 rest1 rest2 : list byte) :
  entropy w1 = (salt1 ++ rest1)%list -> List.length salt1 = 16 ->
  entropy w2 = (salt2 ++ rest2)%list -> List.length salt2 = 16 ->
  salt1 <> salt2 ->
  exists core1 core2 key1 key2 digest1 digest2,
    value (generateLicenseKey domain expire hardwareId) w1 = Normal core1
    /\ value (generateLicenseKey domain expire hardwareId) w2 = Normal core2
    /\ value (addChecksum core1) w = Normal key1
    /\ value (addChecksum core2) w = Normal key2
    /\ split dot key1 = [Hex.toString salt1; digest1; Spec.checksum core1]
    /\ split dot key2 = [Hex.toString salt2; digest2; Spec.checksum core2]
    /\ Hex.toString salt1 <> Hex.toString salt2
    /\ key1 <> key2
    /\ exit_status (events (verify key1) w) = 0%Z
    /\ exit_status (events (verify key2) w) = 0%Z.
Proof.
  intros He1 Hl1 He2 Hl2 Hne.
  assert (Hgen : forall wi salt rest,
             entropy wi = (salt ++ rest)%list -> List.length salt = 16 ->
             value (generateLicenseKey domain expire hardwareId) wi =
             Normal (Hex.toString salt ++ "." ++
                     Spec.sha256_hex (Hex.toString salt ++ "-" ++ domain ++ "-" ++ expire
                                        ++ "-" ++ hardwareId))).
  { intros wi salt rest He Hl. unfold value. rewrite generateLicenseKey_run.
    assert (Hle : (16 <=? List.length (entropy wi))%nat = true).
    { apply Nat.leb_le. rewrite He, length_app. lia. }
    rewrite Hle. cbv zeta. cbn [fst].
    assert (Hf : firstn 16 (entropy wi) = salt).
    { rewrite He, <- Hl. rewrite firstn_app, Nat.sub_diag, firstn_all. simpl. apply app_nil_r. }
    rewrite Hf. reflexivity. }
  set (d1 := Spec.sha256_hex (Hex.toString salt1 ++ "-" ++ domain ++ "-" ++ expire
                                ++ "-" ++ hardwareId)).
  set (d2 := Spec.sha256_hex (Hex.toString salt2 ++ "-" ++ domain ++ "-" ++ expire
                                ++ "-" ++ hardwareId)).
  set (c1 := Hex.toString salt1 ++ "." ++ d1).
  set (c2 := Hex.toString salt2 ++ "." ++ d2).
  destruct (generated_key_shape salt1
              (Hex.toString salt1 ++ "-" ++ domain ++ "-" ++ expire ++ "-" ++ hardwareId) Hl1)
    as (_ & _ & _ & S1 & _ & _).
  destruct (generated_key_shape salt2
              (Hex.toString salt2 ++ "-" ++ domain ++ "-" ++ expire ++ "-" ++ hardwareId) Hl2)
    as (_ & _ & _ & S2 & _ & _).
  fold d1 in S1. fold c1 in S1. fold d2 in S2. fold c2 in S2.
  assert (A1 : c1 ++ "." ++ Spec.checksum c1
               = Hex.toString salt1 ++ "." ++ d1 ++ "." ++ Spec.checksum c1).
  { unfold c1 at 1. rewrite append_assoc. reflexivity. }
  assert (A2 : c2 ++ "." ++ Spec.checksum c2
               = Hex.toString salt2 ++ "." ++ d2 ++ "." ++ Spec.checksum c2).
  { unfold c2 at 1. rewrite append_assoc. reflexivity. }
  assert (Hsalt : Hex.toString salt1 <> Hex.toString salt2).
  { intros E. apply Hne. apply hex_toString_inj. exact E. }
  exists c1, c2, (Hex.toString salt1 ++ "." ++ d1 ++ "." ++ Spec.checksum c1),
    (Hex.toString salt2 ++ "." ++ d2 ++ "." ++ Spec.checksum c2), d1, d2.
  repeat split.
  - apply (Hgen w1 salt1 rest1 He1 Hl1).
  - apply (Hgen w2 salt2 rest2 He2 Hl2).
  - unfold value. rewrite addChecksum_run. cbn [fst]. rewrite A1. reflexivity.
  - unfold value. rewrite addChecksum_run. cbn [fst]. rewrite A2. reflexivity.
  - exact S1.
  - exact S2.
  - exact Hsalt.
  - intros E. apply Hsalt.
    assert (E' : split dot (Hex.toString salt1 ++ "." ++ d1 ++ "." ++ Spec.checksum c1)
                 = split dot (Hex.toString salt2 ++ "." ++ d2 ++ "." ++ Spec.checksum c2))
      by (rewrite E; reflexivity).
    rewrite S1, S2 in E'. congruence.
  - rewrite (verify_events_valid _ _ _ _ w S1 eq_refl). reflexivity.
  - rewrite (verify_events_valid _ _ _ _ w S2 eq_refl). reflexivity.
Qed.

Lemma distinct_salts_distinct_keys_witness :
  exists core1 core2 key1 key2 digest1 digest2,
    value (generateLicenseKey "example.com" "2099-12-31" "abc123") Examples.world = Normal core1
    /\ value (generateLicenseKey "example.com" "2099-12-31" "abc123") Examples.other_world
       = Normal core2
    /\ value (addChecksum core1) Examples.world = Normal key1
    /\ value (addChecksum core2) Examples.world = Normal key2
    /\ split dot key1 = [Hex.toString Examples.salt_bytes; digest1; Spec.checksum core1]
    /\ split dot key2 = [Hex.toString Examples.other_salt_bytes; digest2; Spec.checksum core2]
    /\ Hex.toString Examples.salt_bytes <> Hex.toString Examples.other_salt_bytes
    /\ key1 <> key2
    /\ exit_status (events (verify key1) Examples.world) = 0%Z
    /\ exit_status (events (verify key2) Examples.world) = 0%Z.
Proof.
  refine (distinct_salts_distinct_keys "example.com" "2099-12-31" "abc123"
            Examples.world Examples.other_world Examples.world
            Examples.salt_bytes Examples.other_salt_bytes [x11] [x11]
            eq_refl eq_refl eq_refl eq_refl _).
  vm_compute. discriminate.
Defined.

(** [addChecksum] appends a dot and 8 characters; [verify] accepts the
    result exactly when the core key holds one dot. *)
Theorem addChecksum_roundtrip_iff (coreKey : string) (w w' : World) :
  exists fullKey,
    value (addChecksum coreKey) w = Normal fullKey
    /\ count dot fullKey = S (count dot coreKey)
    /\ String.length fullKey = String.length coreKey + 9
    /\ (exit_status (events (verify fullKey) w') = 0%Z <-> count dot coreKey = 1).
Proof.
  exists (coreKey ++ "." ++ Spec.checksum coreKey).
  assert (Hc : count dot (coreKey ++ "." ++ Spec.checksum coreKey) = S (count dot coreKey)).
  { rewrite !count_append, checksum_no_dot. simpl. lia. }
  split; [reflexivity|]. split; [exact Hc|]. split.
  - destruct (lower_hex_parts _ _ (checksum_format coreKey)) as [L _].
    rewrite !length_append, L. reflexivity.
  - split.
    + intros Hx. destruct (Nat.eq_dec (count dot coreKey) 1) as [E|E]; [exact E|].
      exfalso. rewrite verify_events_malformed in Hx; [discriminate Hx|].
      rewrite length_split, Hc. lia.
    + intros H1. destruct (count_one_split dot coreKey H1) as (a & b & -> & Ha & Hb).
      rewrite (verify_events_valid _ a b (Spec.checksum (a ++ String dot b)) w');
        [reflexivity | | reflexivity].
      rewrite append_assoc. apply (split_with_checksum a b Ha Hb).
Qed.


(** [verify] reports a malformed key exactly when the key does not hold
    two dots. *)
Theorem verify_malformed_iff (key : string) (w : World) :
  stderr (events (verify key) w) = ["Error: Invalid license key format"]
  <-> count dot key <> 2.
Proof.
  pose proof (length_split dot key) as Hl. rewrite verify_events.
  destruct (split dot key) as [|a [|b [|c [|d l]]]]; simpl in Hl;
    try (split; [intros _; lia | reflexivity]).
  destruct (String.eqb c (Spec.checksum (a ++ "." ++ b))); simpl;
    (split; [discriminate | lia]).
Qed.

(** A key of three parts whose third part is not 8 lowercase hexadecimal
    characters fails with a checksum mismatch, whatever the first two
    parts are. *)
Theorem verify_checksum_part_format (key salt hash checksum : string) (w : World) :
  split dot key = [salt; hash; checksum] ->
  Spec.lower_hex 8 checksum = false ->
  events (verify key) w =
    [CreateHash md5; ConsoleError "Error: Invalid license key: checksum mismatch";
     ProcessExit 1].
Proof.
  intros Hs Hf. apply (verify_events_mismatch key salt hash checksum w Hs).
  intros E. rewrite E, checksum_format in Hf. discriminate Hf.
Qed.

Lemma verify_checksum_part_format_witness :
  events (verify "x.y.B2D4CD28") Examples.world =
    [CreateHash md5; ConsoleError "Error: Invalid license key: checksum mismatch";
     ProcessExit 1].
Proof.
  apply (verify_checksum_part_format "x.y.B2D4CD28" "x" "y" "B2D4CD28" Examples.world);
    reflexivity.
Defined.

(** [generate] is all or nothing.  Either it exits with status 1, prints
    nothing on standard output and draws nothing from the random source
    that it keeps; or it exits with status 0, prints one line with a key,
    and has drawn exactly the next 16 bytes of the random source, which
    are the salt of that key. *)
Theorem generate_all_or_nothing (domain expire : string) (w : World) :
  (exit_status (events (generate domain expire) w) = 1%Z
   /\ stdout (events (generate domain expire) w) = []
   /\ stderr (events (generate domain expire) w) <> []
   /\ entropy (after (generate domain expire) w) = entropy w)
  \/
  (exit_status (events (generate domain expire) w) = 0%Z
   /\ stderr (events (generate domain expire) w) = []
   /\ exists saltBytes key,
        entropy w = (saltBytes ++ entropy (after (generate domain expire) w))%list
        /\ List.length saltBytes = 16
        /\ stdout (events (generate domain expire) w) = ["Generated License Key: " ++ key]
        /\ Spec.key_format key = true
        /\ nth 0 (split dot key) "" = Hex.toString saltBytes).
Proof.
  rewrite generate_events, generate_entropy.
  destruct (negb (isValidDomain domain)).
  { left. repeat split. discriminate. }
  destruct (value (isValidExpirationDate expire) w) as [[|]|];
    try (left; repeat split; discriminate).
  destruct (machine_id w) as [h|m]; [|left; repeat split; discriminate].
  destruct (16 <=? List.length (entropy w))%nat eqn:Hr;
    [|left; repeat split; discriminate].
  right. apply Nat.leb_le in Hr. cbv zeta.
  split; [reflexivity|]. split; [reflexivity|].
  set (salt := Hex.toString (firstn 16 (entropy w))).
  set (digest := Spec.sha256_hex (salt ++ "-" ++ domain ++ "-" ++ expire ++ "-" ++ h)).
  destruct (generated_key_shape (firstn 16 (entropy w))
              (salt ++ "-" ++ domain ++ "-" ++ expire ++ "-" ++ h)
              (firstn_length_16 _ Hr))
    as (_ & _ & _ & H4 & _ & H6).
  fold salt in H4, H6. fold digest in H4, H6.
  exists (firstn 16 (entropy w)),
    (salt ++ "." ++ digest ++ "." ++ Spec.checksum (salt ++ "." ++ digest)).
  split; [symmetry; apply firstn_skipn|].
  split; [apply firstn_length_16; exact Hr|].
  split; [cbn [stdout flat_map app]; rewrite append_assoc; reflexivity|].
  split; [exact H6|].
  rewrite H4. reflexivity.
Qed.

(** A domain that [isValidDomain] accepts has six characters or more, is
    made of letters, digits, hyphens and dots only, and holds a dot. *)
Theorem isValidDomain_necessary (d : string) :
  isValidDomain d = true ->
  6 <= String.length d
  /\ all (fun c => Spec.is_alnum_or_hyphen c || Ascii.eqb c dot) d = true
  /\ 1 <= count dot d.
Proof.
  intros H. unfold isValidDomain in H. apply test_spec, lang_domainRegex in H.
  destruct H as (c1 & mid & c2 & segs & -> & H1 & [Hlo Hhi] & Ha & H2 & Hl & Hs).
  destruct segs as [|g segs]; [simpl in Hl; lia|].
  simpl in Hs. apply andb_true_iff in Hs. destruct Hs as [Hg Hs].
  destruct (segment_ok_parts _ Hg) as [Lg Ag].
  assert (Hdot : Spec.is_alnum_or_hyphen dot || Ascii.eqb dot dot = true) by reflexivity.
  assert (Hd : forall l, forallb Spec.segment_ok l = true ->
                 all (fun c => Spec.is_alnum_or_hyphen c || Ascii.eqb c dot) (Spec.dotted l) = true).
  { induction l as [|x l IH]; [reflexivity|]. cbn [forallb Spec.dotted all]. intros Hx.
    apply andb_true_iff in Hx. destruct Hx as [Hx Hl'].
    destruct (segment_ok_parts _ Hx) as [_ Ax].
    rewrite Hdot, all_append, (IH Hl'), andb_true_r. cbn [andb].
    apply (all_impl is_alpha); [|exact Ax].
    intros c Hc. rewrite (alpha_is_alnum_or_hyphen _ Hc). reflexivity. }
  assert (Hmid : all (fun c => Spec.is_alnum_or_hyphen c || Ascii.eqb c dot) mid = true).
  { apply (all_impl Spec.is_alnum_or_hyphen); [|exact Ha].
    intros c Hc. rewrite Hc. reflexivity. }
  assert (Hgs : all (fun c => Spec.is_alnum_or_hyphen c || Ascii.eqb c dot) g = true).
  { apply (all_impl is_alpha); [|exact Ag].
    intros c Hc. rewrite (alpha_is_alnum_or_hyphen _ Hc). reflexivity. }
  repeat split.
  - cbn [String.length]. rewrite length_append. cbn [String.length Spec.dotted].
    rewrite length_append. lia.
  - cbn [all]. rewrite all_append. cbn [all Spec.dotted]. rewrite all_append.
    rewrite (alnum_is_alnum_or_hyphen _ H1), (alnum_is_alnum_or_hyphen _ H2).
    rewrite Hmid, Hdot, Hgs, (Hd _ Hs). reflexivity.
  - cbn [count]. rewrite count_append. cbn [count Spec.dotted].
    rewrite Ascii.eqb_refl. lia.
Qed.

Lemma isValidDomain_necessary_witness :
  6 <= String.length "abc.io"
  /\ all (fun c => Spec.is_alnum_or_hyphen c || Ascii.eqb c dot) "abc.io" = true
  /\ 1 <= count dot "abc.io".
Proof.
  apply (isValidDomain_necessary "abc.io"). vm_compute. reflexivity.
Defined.

(** Only the first label may hold digits or hyphens: a domain with a
    later label that holds a character other than a letter is rejected,
    so that www.my-site.com and shop.example2.com are not valid. *)
Theorem isValidDomain_later_labels_letters (d : string) (label : string) :
  In label (tl (split dot d)) ->
  all is_alpha label = false ->
  isValidDomain d = false.
Proof.
  intros Hin Hna. apply not_valid. intros H.
  destruct (grammar_parts d H) as (first & seg & segs & Hs & _ & Hg).
  rewrite Hs in Hin. cbn [tl] in Hin.
  rewrite forallb_forall in Hg. specialize (Hg label Hin).
  destruct (segment_ok_parts _ Hg) as [_ A]. congruence.
Qed.

Lemma isValidDomain_later_labels_letters_witness :
  isValidDomain "www.my-site.com" = false /\ isValidDomain "shop.example2.com" = false.
Proof.
  split.
  - apply (isValidDomain_later_labels_letters "www.my-site.com" "my-site").
    + vm_compute. auto.
    + reflexivity.
  - apply (isValidDomain_later_labels_letters "shop.example2.com" "example2").
    + vm_compute. auto.
    + reflexivity.
Defined.

(** Whatever the engine's parser, [isValidExpirationDate] returns true
    exactly when the string has the form of four digits, dash, two digits,
    dash, two digits, the parser gives a time value that is not NaN for
    it, and that time is strictly later than the clock; it never throws.
    The string 2025-1-5 is rejected whatever the parser makes of it, and a
    string that parses to exactly the current moment is rejected.  Which
    strings the parser accepts is the engine's matter. *)
Theorem isValidExpirationDate_iff (s : string) (w : World) :
  (value (isValidExpirationDate s) w = Normal true <->
     Spec.date_pattern s = true
     /\ exists t, date_parse w s = Some t /\ (now w < t)%Z)
  /\ (exists b, value (isValidExpirationDate s) w = Normal b)
  /\ value (isValidExpirationDate "2025-1-5") w = Normal false
  /\ (date_parse w s = Some (now w) ->
      value (isValidExpirationDate s) w = Normal false).
Proof.
  rewrite !isValidExpirationDate_value, !dateRegex_pattern.
  split; [|split; [|split]].
  - split.
    + intros H. injection H as H.
      apply andb_true_iff in H. destruct H as [H Hp].
      apply andb_true_iff in H. destruct H as [Hn Hg].
      split; [exact Hp|].
      destruct (date_parse w s) as [t|]; [|discriminate Hn].
      exists t. split; [reflexivity|]. simpl in Hg. apply Z.ltb_lt. exact Hg.
    + intros (Hp & t & Ht & Hlt). rewrite Ht, Hp. simpl.
      apply Z.ltb_lt in Hlt. rewrite Hlt. reflexivity.
  - eexists. reflexivity.
  - assert (E : Spec.date_pattern "2025-1-5" = false) by reflexivity.
    rewrite E, andb_false_r. reflexivity.
  - intros Ht. rewrite Ht. simpl. rewrite Z.ltb_irrefl. reflexivity.
Qed.

Lemma isValidExpirationDate_iff_witness :
  value (isValidExpirationDate "2026-11-01") Examples.world = Normal false
  /\ value (isValidExpirationDate "2025-1-5") Examples.lenient_world = Normal false.
Proof.
  split.
  - apply (proj2 (proj2 (proj2 (isValidExpirationDate_iff "2026-11-01" Examples.world)))).
    vm_compute. reflexivity.
  - exact (proj1 (proj2 (proj2 (isValidExpirationDate_iff "" Examples.lenient_world)))).
Defined.

(** A date that [isValidExpirationDate] accepts at some moment is
    accepted at every earlier moment by the same parser: validity can
    only be lost as the clock advances. *)
Theorem isValidExpirationDate_earlier_clock (s : string) (w w' : World) :
  date_parse w' = date_parse w ->
  (now w' <= now w)%Z ->
  value (isValidExpirationDate s) w = Normal true ->
  value (isValidExpirationDate s) w' = Normal true.
Proof.
  intros Hp Hn. rewrite !isValidExpirationDate_value, Hp.
  intros H. injection H as H.
  apply andb_true_iff in H. destruct H as [H Hr].
  apply andb_true_iff in H. destruct H as [Hnan Hg].
  destruct (date_parse w s) as [t|]; [|discriminate Hnan].
  simpl in *. apply Z.ltb_lt in Hg.
  assert (Hg' : (now w' <? t)%Z = true) by (apply Z.ltb_lt; lia).
  rewrite Hg', Hr. reflexivity.
Qed.

Lemma isValidExpirationDate_earlier_clock_witness :
  value (isValidExpirationDate "2099-12-31")
        (mkWorld 0 Date_only.parse (Normal "abc123") [] []) = Normal true.
Proof.
  apply (isValidExpirationDate_earlier_clock "2099-12-31" Examples.world
           (mkWorld 0 Date_only.parse (Normal "abc123") [] [])).
  - reflexivity.
  - vm_compute. discriminate.
  - vm_compute. reflexivity.
Defined.

End Further.
